(** * uniland: the in-memory keyword search index and the user cache

    A shallow embedding of [uniland/utils/search.py] ([Record],
    [SearchEngine], [UserPermission]), of [uniland/utils/usercache.py]
    ([UserRecord], [UserCache]) and of the methods of
    [uniland/db/tables.py] that build the search text of a submission and
    confirm it, with the properties of the specification and further
    properties of the code stated over it.

    Python values are modelled as follows.
    - [str] is a sequence of Unicode code points: [list N].
    - [int] is unbounded: [Z].
    - a [dict] is a [gmap], a [set] is a [gset].
    - instances of [Record] are mutable objects compared and hashed by
      identity: the engine state carries a heap from addresses to field
      values, and the two dictionaries of the engine hold addresses.
    - an exception aborts the running method and leaves the state as it was
      at the moment of the raise. *)

From stdpp Require Import gmap sorting.
From Stdlib Require Import ZArith Ascii String DecimalString.

Set Warnings "-clear-no-such-hyp".

Open Scope Z_scope.

(** ** Python strings *)

Module PyStr.

(** Code points of a literal written in ASCII. *)
Definition of_string (s : string) : list N :=
  List.map N_of_ascii (list_ascii_of_string s).

(** [str.isspace] on one code point, as CPython's [_PyUnicode_IsWhitespace]
    lists them; [str.strip()] and [str.split()] without argument use it. *)
Definition is_space (c : N) : bool :=
  ((9 <=? c) && (c <=? 13) || (28 <=? c) && (c <=? 32)
   || (c =? 133) || (c =? 160) || (c =? 5760)
   || (8192 <=? c) && (c <=? 8202)
   || (c =? 8232) || (c =? 8233) || (c =? 8239) || (c =? 8287)
   || (c =? 12288))%N.

Fixpoint lstrip (s : list N) : list N :=
  match s with
  | [] => []
  | c :: s' => if is_space c then lstrip s' else s
  end.

Fixpoint rstrip (s : list N) : list N :=
  match s with
  | [] => []
  | c :: s' =>
      match rstrip s' with
      | [] => if is_space c then [] else [c]
      | r => c :: r
      end
  end.

(** [text.strip()] *)
Definition strip (s : list N) : list N := rstrip (lstrip s).

(** [text.split()]: the maximal runs of non-whitespace, in order. [cur] is
    the run being read, last character first. *)
Fixpoint split_from (cur : list N) (s : list N) : list (list N) :=
  match s with
  | [] => match cur with [] => [] | _ => [reverse cur] end
  | c :: s' =>
      if is_space c
      then match cur with
           | [] => split_from [] s'
           | _ => reverse cur :: split_from [] s'
           end
      else split_from (c :: cur) s'
  end.

Definition split (s : list N) : list (list N) := split_from [] s.

Fixpoint starts_with (p s : list N) : bool :=
  match p, s with
  | [], _ => true
  | a :: p', b :: s' => (a =? b)%N && starts_with p' s'
  | _ :: _, [] => false
  end.

(** [text.replace(old, new)] for a non-empty [old]: occurrences are taken
    left to right and do not overlap; [skip] counts the characters of the
    occurrence just replaced that are still to be dropped. *)
Fixpoint replace_from (old new : list N) (skip : nat) (s : list N) : list N :=
  match s with
  | [] => []
  | c :: s' =>
      match skip with
      | S k => replace_from old new k s'
      | O =>
          if starts_with old s
          then new ++ replace_from old new (List.length old - 1) s'
          else c :: replace_from old new 0 s'
      end
  end.

(** [text.replace(old, new)]; with an empty [old] Python puts [new] before
    every character and at the end. *)
Definition replace (old new s : list N) : list N :=
  match old with
  | [] => new ++ flat_map (λ c, c :: new) s
  | _ => replace_from old new 0 s
  end.

End PyStr.

(** ** Python exceptions and methods that may raise *)

Module Py.

(** A heap address: the identity of a Python object. *)
Abbreviation loc := positive.

(** The key a [KeyError] reports. *)
Inductive pykey :=
| KInt (i : Z)
| KStr (s : list N)
| KObj (a : loc).

Inductive exn :=
| KeyError (k : pykey)
| TypeError.

Inductive outcome (A : Type) :=
| Ok (v : A)
| Raise (x : exn).
Arguments Ok {A} v.
Arguments Raise {A} x.

(** A method of an object whose state has type [St]: it returns or raises,
    and leaves a state behind in both cases. *)
Definition M (St A : Type) : Type := St → outcome A * St.

Definition ret {St A} (v : A) : M St A := λ s, (Ok v, s).

Definition raise {St A} (x : exn) : M St A := λ s, (Raise x, s).

Definition bind {St A B} (m : M St A) (k : A → M St B) : M St B :=
  λ s, match m s with
       | (Ok v, s') => k v s'
       | (Raise x, s') => (Raise x, s')
       end.

(** [for x in l: body(x)] *)
Fixpoint for_each {St A} (l : list A) (body : A → M St unit) : M St unit :=
  match l with
  | [] => ret tt
  | x :: l' => bind (body x) (λ _, for_each l' body)
  end.

Global Instance M_ret {St} : MRet (M St) := λ A, @ret St A.
Global Instance M_bind {St} : MBind (M St) := λ A B k m, @bind St A B m k.

(** The state a method leaves. *)
Definition exec {St A} (m : M St A) (s : St) : St := (m s).2.

(** What a method returns or raises. *)
Definition result {St A} (m : M St A) (s : St) : outcome A := (m s).1.

End Py.

Export Py.

(** ** [uniland/utils/search.py] *)

Module Search.
Import PyStr.

(** [class Record]: the fields of one instance. *)
Record Rec := mkRecord {
  rec_id : Z;
  search_text : list N;
  rec_type : list N;
  likes : Z
}.

Global Instance Rec_inhabited : Inhabited Rec := populate (mkRecord 0 [] [] 0).

(** [class SearchEngine]: [subs] maps an id to a [Record] object and
    [keywords] maps a keyword to a set of [Record] objects; [heap] holds the
    fields of every [Record] object created so far. *)
Record SearchEngine := mkEngine {
  heap : gmap loc Rec;
  subs : gmap Z loc;
  keywords : gmap (list N) (gset loc)
}.

Definition set_heap (h : gmap loc Rec) (e : SearchEngine) : SearchEngine :=
  mkEngine h (subs e) (keywords e).
Definition set_subs (m : gmap Z loc) (e : SearchEngine) : SearchEngine :=
  mkEngine (heap e) m (keywords e).
Definition set_keywords (k : gmap (list N) (gset loc)) (e : SearchEngine)
  : SearchEngine :=
  mkEngine (heap e) (subs e) k.

(** [SearchEngine.alts]: ي, ك, ة, أ, إ, ئ and what replaces them, in the
    order of the dictionary. *)
Definition alts : list (list N * list N) :=
  [ ([1610], [1740]); ([1603], [1705]); ([1577], [1607]);
    ([1571], [1575]); ([1573], [1575]); ([1574], [1740]) ]%N.

(** [SearchEngine.__init__] *)
Definition init : SearchEngine := mkEngine ∅ ∅ ∅.

(** [SearchEngine.__clean_text] *)
Definition clean_text (text : list N) : list N :=
  strip (foldl (λ text kv, replace kv.1 kv.2 text) text alts).

(** *** Statements on the engine's objects *)

(** [Record(id, search_text, type, likes)]: a new object. *)
Definition new_Record (id : Z) (text type : list N) (likes : Z)
  : M SearchEngine loc :=
  λ e, let a := fresh (dom (heap e)) in
       (Ok a, set_heap (<[a := mkRecord id text type likes]> (heap e)) e).

(** Reading the fields of [record]. A Python reference always leads to an
    object; the invariant [wf] below says that every address the engine
    holds is in [heap], and the total lookup never falls back on its default
    there. *)
Definition deref (record : loc) : M SearchEngine Rec :=
  λ e, (Ok (heap e !!! record), e).

(** Assigning fields of [record], in place. *)
Definition assign (record : loc) (f : Rec → Rec) : M SearchEngine unit :=
  λ e, (Ok tt, set_heap (alter f record (heap e)) e).

Definition with_search_text (t : list N) (r : Rec) : Rec :=
  mkRecord (rec_id r) t (rec_type r) (likes r).
Definition with_type (t : list N) (r : Rec) : Rec :=
  mkRecord (rec_id r) (search_text r) t (likes r).
Definition with_likes (n : Z) (r : Rec) : Rec :=
  mkRecord (rec_id r) (search_text r) (rec_type r) n.

(** [self.subs[id] = record] *)
Definition subs_set (id : Z) (record : loc) : M SearchEngine unit :=
  λ e, (Ok tt, set_subs (<[id := record]> (subs e)) e).

(** [self.subs[id]] *)
Definition subs_get (id : Z) : M SearchEngine loc :=
  λ e, match subs e !! id with
       | Some a => (Ok a, e)
       | None => (Raise (KeyError (KInt id)), e)
       end.

(** [self.subs.pop(id)] *)
Definition subs_pop (id : Z) : M SearchEngine loc :=
  λ e, match subs e !! id with
       | Some a => (Ok a, set_subs (delete id (subs e)) e)
       | None => (Raise (KeyError (KInt id)), e)
       end.

(** [word in self.keywords] *)
Definition kw_has (word : list N) : M SearchEngine bool :=
  λ e, (Ok (bool_decide (is_Some (keywords e !! word))), e).

(** [self.keywords[word] = set()] *)
Definition kw_new (word : list N) : M SearchEngine unit :=
  λ e, (Ok tt, set_keywords (<[word := ∅]> (keywords e)) e).

(** [self.keywords[word].add(record)] *)
Definition kw_add (word : list N) (record : loc) : M SearchEngine unit :=
  λ e, match keywords e !! word with
       | Some s => (Ok tt, set_keywords (<[word := s ∪ {[record]}]> (keywords e)) e)
       | None => (Raise (KeyError (KStr word)), e)
       end.

(** [self.keywords[word].remove(record)] *)
Definition kw_remove (word : list N) (record : loc) : M SearchEngine unit :=
  λ e, match keywords e !! word with
       | Some s =>
           if bool_decide (record ∈ s)
           then (Ok tt, set_keywords (<[word := s ∖ {[record]}]> (keywords e)) e)
           else (Raise (KeyError (KObj record)), e)
       | None => (Raise (KeyError (KStr word)), e)
       end.

(** [len(self.keywords[word])] *)
Definition kw_len (word : list N) : M SearchEngine nat :=
  λ e, match keywords e !! word with
       | Some s => (Ok (size s), e)
       | None => (Raise (KeyError (KStr word)), e)
       end.

(** [del self.keywords[word]] *)
Definition kw_del (word : list N) : M SearchEngine unit :=
  λ e, match keywords e !! word with
       | Some _ => (Ok tt, set_keywords (delete word (keywords e)) e)
       | None => (Raise (KeyError (KStr word)), e)
       end.

(** *** The methods *)

(** The body of the loop of [index_record]. *)
Definition index_body (record : loc) (word : list N) : M SearchEngine unit :=
  present ← kw_has word;
  (if negb present then kw_new word else ret tt);;
  kw_add word record.

(** [SearchEngine.index_record] *)
Definition index_record (id : Z) (search_text sub_type : list N) (likes : Z)
  : M SearchEngine unit :=
  let search_text := clean_text search_text in
  record ← new_Record id search_text (strip sub_type) likes;
  subs_set id record;;
  for_each (split search_text) (index_body record).

(** The body of the loop of [remove_record]. *)
Definition remove_body (record : loc) (word : list N) : M SearchEngine unit :=
  present ← kw_has word;
  if (present : bool) then
    kw_remove word record;;
    n ← kw_len word;
    if (n =? 0)%nat then kw_del word else ret tt
  else ret tt.

(** [SearchEngine.remove_record] *)
Definition remove_record (id : Z) : M SearchEngine loc :=
  record ← subs_pop id;
  r ← deref record;
  let search_text := search_text r in
  for_each (split search_text) (remove_body record);;
  ret record.

(** [SearchEngine.update_record]; [None] is Python's [None], and [likes] is
    an [int] whose default value is [-1]. *)
Definition update_record (id : Z) (search_text sub_type : option (list N))
    (likes : Z) : M SearchEngine unit :=
  record ← remove_record id;
  r ← deref record;
  assign record
    (with_search_text
       (match search_text with None => Search.search_text r | Some t => t end));;
  r ← deref record;
  assign record
    (with_type (match sub_type with None => rec_type r | Some t => t end));;
  r ← deref record;
  assign record
    (with_likes (if (likes =? -1) then Search.likes r else likes));;
  r ← deref record;
  index_record (rec_id r) (Search.search_text r) (rec_type r) (Search.likes r).

(** [SearchEngine.increase_likes] *)
Definition increase_likes (id : Z) : M SearchEngine unit :=
  record ← subs_get id;
  r ← deref record;
  assign record (with_likes (likes r + 1)).

(** [SearchEngine.decrease_likes] *)
Definition decrease_likes (id : Z) : M SearchEngine unit :=
  record ← subs_get id;
  r ← deref record;
  assign record (with_likes (likes r - 1)).

(** [sorted(result, key=lambda x: x.likes, reverse=True)]: a stable sort,
    larger keys first; [sort_insert] puts [x], which comes before every
    element of [l] in the input, in front of the first element whose key is
    not larger. *)
Fixpoint sort_insert (key : loc → Z) (x : loc) (l : list loc) : list loc :=
  match l with
  | [] => [x]
  | y :: l' =>
      if key y <=? key x then x :: l else y :: sort_insert key x l'
  end.

Definition sorted_reverse (key : loc → Z) (l : list loc) : list loc :=
  foldr (sort_insert key) [] l.

(** One turn of the loop of [search]: the pair is [(result, first_flag)]. *)
Definition search_step (e : SearchEngine) (st : gset loc * bool) (word : list N)
  : gset loc * bool :=
  let '(result, first_flag) := st in
  match keywords e !! word with
  | Some s =>
      if negb first_flag then (result ∩ s, first_flag) else (s, false)
  | None => (result, first_flag)
  end.

(** [SearchEngine.search]: it reads the engine and changes nothing. The
    order in which Python walks a [set] is not fixed; [elements] stands for
    it, and no statement below depends on that order. *)
Definition search (e : SearchEngine) (search_text : list N) : list loc :=
  let search_text := clean_text search_text in
  let '(result, _) := foldl (search_step e) (∅, true) (split search_text) in
  sorted_reverse (λ x, likes (heap e !!! x)) (elements result).

(** *** The normalizer *)

(** The fold table as the specification words it: ي→ی, ك→ک, ة→ه, أ→ا,
    إ→ا, ئ→ی, every other character kept. *)
Definition fold_char (c : N) : N :=
  (if c =? 1610 then 1740
   else if c =? 1603 then 1705
   else if c =? 1577 then 1607
   else if c =? 1571 then 1575
   else if c =? 1573 then 1575
   else if c =? 1574 then 1740
   else c)%N.

(** [normalize] as the specification words it: fold every character, then
    trim. *)
Definition normalize (text : list N) : list N :=
  strip (List.map fold_char text).

(** *** Observations *)

(** The set of [Record] objects listed under [word]; none when [word] is
    not a key. *)
Definition posting (e : SearchEngine) (word : list N) : gset loc :=
  default ∅ (keywords e !! word).

(** The whitespace-separated tokens of the text of the object at [a]. *)
Definition tokens_of (e : SearchEngine) (a : loc) : list (list N) :=
  split (search_text (heap e !!! a)).

(** The identities of the records [search] returns, in its order. *)
Definition search_ids (e : SearchEngine) (q : list N) : list Z :=
  (λ a, rec_id (heap e !!! a)) <$> search e q.

(** The tokens of the query that are keys of the keyword index. *)
Definition present_tokens (e : SearchEngine) (q : list N) : list (list N) :=
  filter (λ w, is_Some (keywords e !! w)) (split (clean_text q)).

(** Identity [i] is reachable from the keyword index under token [t]. *)
Definition id_under (e : SearchEngine) (t : list N) (i : Z) : Prop :=
  ∃ a, a ∈ posting e t ∧ rec_id (heap e !!! a) = i.

(** [t] is a token of the text of the record that [subs] holds for [i]. *)
Definition token_of_id (e : SearchEngine) (t : list N) (i : Z) : Prop :=
  ∃ a, subs e !! i = Some a ∧ t ∈ tokens_of e a.

(** Object [a] is referenced by one of the two dictionaries. *)
Definition referenced (e : SearchEngine) (a : loc) : Prop :=
  (∃ i, subs e !! i = Some a) ∨ (∃ w, a ∈ posting e w).

(** Two engine states that no sequence of method calls tells apart: the same
    dictionaries, the same fields in every object they reference, and the
    same addresses in use. *)
Definition obs_eq (e1 e2 : SearchEngine) : Prop :=
  subs e1 = subs e2 ∧ keywords e1 = keywords e2 ∧
  dom (heap e1) = dom (heap e2) ∧
  ∀ a, referenced e1 a → heap e1 !! a = heap e2 !! a.

(** The same for what a call leaves: result or exception, and state. *)
Definition run_eq {A} (r1 r2 : outcome A * SearchEngine) : Prop :=
  r1.1 = r2.1 ∧ obs_eq r1.2 r2.2.

(** *** The two loops on the keyword dictionary alone *)

Definition posting_of (kw : gmap (list N) (gset loc)) (word : list N) : gset loc :=
  default ∅ (kw !! word).

(** What one turn of the loop of [index_record] does to [keywords]. *)
Definition index_word (a : loc) (kw : gmap (list N) (gset loc)) (word : list N)
  : gmap (list N) (gset loc) :=
  <[word := posting_of kw word ∪ {[a]}]> kw.

(** Whether one turn of the loop of [remove_record] gets past
    [self.keywords[word].remove(record)]. *)
Definition retract_ok (a : loc) (kw : gmap (list N) (gset loc)) (word : list N)
  : bool :=
  match kw !! word with
  | Some s => bool_decide (a ∈ s)
  | None => true
  end.

(** What such a turn does to [keywords]. *)
Definition retract_word (a : loc) (kw : gmap (list N) (gset loc)) (word : list N)
  : gmap (list N) (gset loc) :=
  match kw !! word with
  | Some s =>
      if (size (s ∖ {[a]}) =? 0)%nat then delete word kw
      else <[word := s ∖ {[a]}]> kw
  | None => kw
  end.

(** The loop of [remove_record]: how it ends and the [keywords] it leaves. *)
Fixpoint retract_words (a : loc) (kw : gmap (list N) (gset loc))
    (words : list (list N)) : outcome unit * gmap (list N) (gset loc) :=
  match words with
  | [] => (Ok tt, kw)
  | w :: words' =>
      if retract_ok a kw w then retract_words a (retract_word a kw w) words'
      else (Raise (KeyError (KObj a)), kw)
  end.

(** *** Invariants *)

(** What holds of the engine after any sequence of calls, including calls
    that raised. *)
Record wf (e : SearchEngine) : Prop := mk_wf {
  wf_subs : ∀ i a, subs e !! i = Some a →
            a ∈ dom (heap e) ∧ rec_id (heap e !!! a) = i;
  wf_keywords : ∀ w a, a ∈ posting e w →
                a ∈ dom (heap e) ∧ w ∈ tokens_of e a;
  wf_nonempty : ∀ w s, keywords e !! w = Some s → s ≠ ∅;
  wf_live : ∀ i a w, subs e !! i = Some a → w ∈ tokens_of e a →
            a ∈ posting e w
}.

(** The keyword index lists no object that [subs] has dropped or replaced. *)
Definition in_sync (e : SearchEngine) : Prop :=
  ∀ w a, a ∈ posting e w → subs e !! rec_id (heap e !!! a) = Some a.

(** *** Sequences of calls *)

Inductive call :=
| IndexRecord (id : Z) (search_text sub_type : list N) (likes : Z)
| UpdateRecord (id : Z) (search_text sub_type : option (list N)) (likes : Z)
| RemoveRecord (id : Z)
| IncreaseLikes (id : Z)
| DecreaseLikes (id : Z).

Definition run_call (c : call) : M SearchEngine unit :=
  match c with
  | IndexRecord id t ty l => index_record id t ty l
  | UpdateRecord id t ty l => update_record id t ty l
  | RemoveRecord id => _ ← remove_record id; ret tt
  | IncreaseLikes id => increase_likes id
  | DecreaseLikes id => decrease_likes id
  end.

(** The states of an engine that starts empty; a call that raises leaves a
    state too, the caller may catch the exception and go on. *)
Inductive reachable : SearchEngine → Prop :=
| reachable_init : reachable init
| reachable_call e c : reachable e → reachable (exec (run_call c) e).

(** *** [update_record] as the specification words it *)

(** The fields of [r] after the three assignments of [update_record]. *)
Definition merged (search_text sub_type : option (list N)) (likes : Z) (r : Rec)
  : Rec :=
  mkRecord (rec_id r)
    (default (Search.search_text r) search_text)
    (default (rec_type r) sub_type)
    (if likes =? -1 then Search.likes r else likes).

(** Remove, then index with the old fields merged with the provided ones;
    the method takes [likes = -1] for a score that is not provided. *)
Definition update_merged (id : Z) (search_text sub_type : option (list N))
    (likes : Z) : M SearchEngine unit :=
  record ← remove_record id;
  r ← deref record;
  index_record id
    (default (Search.search_text r) search_text)
    (default (rec_type r) sub_type)
    (if likes =? -1 then Search.likes r else likes).

(** The same with an optional score, every provided score merged. *)
Definition update_specified (id : Z) (search_text sub_type : option (list N))
    (score : option Z) : M SearchEngine unit :=
  record ← remove_record id;
  r ← deref record;
  index_record id
    (default (Search.search_text r) search_text)
    (default (rec_type r) sub_type)
    (default (Search.likes r) score).

(** *** Engines for the examples *)

(** One record, id 1, text [a], 3 likes. *)
Definition engine_one : SearchEngine :=
  exec (index_record 1 (of_string "a") (of_string "t") 3) init.

(** Two records: id 1 with text [a b] and no like, id 2 with text [a c] and
    5 likes. *)
Definition engine_two : SearchEngine :=
  exec (index_record 2 (of_string "a c") (of_string "t") 5)
    (exec (index_record 1 (of_string "a b") (of_string "t") 0) init).

(** [index_record] called twice with id 1: text [a], then text [b]. *)
Definition engine_reused : SearchEngine :=
  exec (index_record 1 (of_string "b") (of_string "t") 0)
    (exec (index_record 1 (of_string "a") (of_string "t") 0) init).

(** Record 1 has the token [a] twice, record 2 has it too. *)
Definition engine_repeated : SearchEngine :=
  exec (index_record 2 (of_string "a") (of_string "t") 0)
    (exec (index_record 1 (of_string "a a") (of_string "t") 0) init).

(** The scenario of the specification: record 1 is
    [فیلم درس ریاضی استاد احمدی] with no like, record 2 is
    [فیلم درس فیزیک استاد احمدی] with 5 likes, both of type [media]. *)
Definition film : list N := [1601; 1740; 1604; 1605]%N.
Definition dars : list N := [1583; 1585; 1587]%N.
Definition riazi : list N := [1585; 1740; 1575; 1590; 1740]%N.
Definition fizik : list N := [1601; 1740; 1586; 1740; 1705]%N.
Definition ostad : list N := [1575; 1587; 1578; 1575; 1583]%N.
Definition ahmadi : list N := [1575; 1581; 1605; 1583; 1740]%N.

Definition sentence (ws : list (list N)) : list N :=
  match ws with
  | [] => []
  | w :: ws' => w ++ flat_map (λ x, 32%N :: x) ws'
  end.

Definition engine_scenario : SearchEngine :=
  exec (index_record 2 (sentence [film; dars; fizik; ostad; ahmadi])
          (of_string "media") 5)
    (exec (index_record 1 (sentence [film; dars; riazi; ostad; ahmadi])
             (of_string "media") 0) init).

End Search.

(** ** [uniland/utils/usercache.py] *)

Module Cache.
Import PyStr.

(** A permission as a caller passes it and as it is stored: a name or a
    number. *)
Inductive pyval :=
| PStr (s : list N)
| PInt (n : Z).

(** [class UserRecord] *)
Record UserRecord := mkUser {
  user_id : Z;
  permission : pyval;
  last_step : list N
}.

(** [class UserCache]: [users] maps an id to a [UserRecord]. *)
Record UserCache := mkCache {
  users : gmap Z UserRecord
}.

(** [UserRecord.permission_values] *)
Definition permission_values : list (list N * Z) :=
  [ (of_string "Admin", 3); (of_string "Editor", 2); (of_string "Ordinary", 1) ].

(** [d[k]] when [k in d.keys()] *)
Fixpoint dict_get (d : list (list N * Z)) (k : list N) : option Z :=
  match d with
  | [] => None
  | (k', v) :: d' => if bool_decide (k = k') then Some v else dict_get d' k
  end.

(** [UserRecord.update_permission] *)
Definition update_permission (permission : pyval) (u : UserRecord) : UserRecord :=
  match permission with
  | PStr name =>
      match dict_get permission_values name with
      | Some v => mkUser (user_id u) (PInt v) (last_step u)
      | None => mkUser (user_id u) permission (last_step u)
      end
  | PInt _ => mkUser (user_id u) permission (last_step u)
  end.

(** [UserRecord.has_permission]; comparing a [str] with an [int] raises. *)
Definition record_has_permission (u : UserRecord) (min_permission max_permission : Z)
  : outcome bool :=
  match permission u with
  | PInt p => Ok ((p >=? min_permission) && (p <=? max_permission))
  | PStr _ => Raise TypeError
  end.

(** [UserCache.__init__] *)
Definition init : UserCache := mkCache ∅.

(** [UserCache.update_user_permission] *)
Definition update_user_permission (user_id : Z) (permission : pyval)
  : M UserCache unit :=
  λ c, match users c !! user_id with
       | None => (Ok tt, c)
       | Some u =>
           (Ok tt, mkCache (<[user_id := update_permission permission u]> (users c)))
       end.

(** [UserCache.remove_user]; [None] is Python's [None]. *)
Definition remove_user (user_id : Z) : M UserCache (option UserRecord) :=
  λ c, match users c !! user_id with
       | None => (Ok None, c)
       | Some u => (Ok (Some u), mkCache (delete user_id (users c)))
       end.

(** [UserCache.has_permission] *)
Definition has_permission (user_id : Z) (min_permission max_permission : Z)
  : M UserCache bool :=
  λ c, match users c !! user_id with
       | None => (Ok false, c)
       | Some u => (record_has_permission u min_permission max_permission, c)
       end.

Section with_lower.
(** [str.lower], which the two classes use on step names only. *)
Variable lower : list N → list N.

(** [UserRecord.__init__] *)
Definition new_UserRecord (user_id : Z) (permission : pyval) (last_step : list N)
  : UserRecord :=
  update_permission permission
    (mkUser user_id permission
       (match last_step with [] => [] | _ => lower (strip last_step) end)).

(** [UserCache.add_user] *)
Definition add_user (user_id : Z) (permission : pyval) (last_step : list N)
  : M UserCache unit :=
  λ c, (Ok tt,
        mkCache (<[user_id := new_UserRecord user_id permission last_step]> (users c))).

(** [UserCache.update_user_step] *)
Definition update_user_step (user_id : Z) (last_step : list N) : M UserCache unit :=
  λ c, match users c !! user_id with
       | None => (Ok tt, c)
       | Some u =>
           (Ok tt,
            mkCache (<[user_id := mkUser (Cache.user_id u) (permission u)
                                    (lower (strip last_step))]> (users c)))
       end.

(** [UserCache.match_step] *)
Definition match_step (user_id : Z) (step : list N) : M UserCache bool :=
  λ c, match users c !! user_id with
       | None => (Ok false, c)
       | Some u => (Ok (bool_decide (last_step u = lower (strip step))), c)
       end.

End with_lower.

End Cache.

(** ** [class UserPermission] of [uniland/utils/search.py] *)

Module Permission.
Import PyStr Cache.

(** [UserPermission.permission_values] is the table of [UserRecord]; [users]
    maps an id to the permission itself. *)
Record UserPermission := mkPermission {
  users : gmap Z pyval
}.

(** [UserPermission.__init__] *)
Definition init : UserPermission := mkPermission ∅.

(** [UserPermission.add_user] *)
Definition add_user (user_id : Z) (permission : pyval) : M UserPermission unit :=
  λ p,
    let permission :=
      match permission with
      | PStr name =>
          match dict_get permission_values name with
          | Some v => PInt v
          | None => permission
          end
      | PInt _ => permission
      end in
    (Ok tt, mkPermission (<[user_id := permission]> (users p))).

(** [UserPermission.update_permission] *)
Definition update_permission (user_id : Z) (permission : pyval)
  : M UserPermission unit :=
  add_user user_id permission.

(** [UserPermission.remove_user]: [del self.users[user_id]] *)
Definition remove_user (user_id : Z) : M UserPermission unit :=
  λ p, match users p !! user_id with
       | Some _ => (Ok tt, mkPermission (delete user_id (users p)))
       | None => (Raise (KeyError (KInt user_id)), p)
       end.

(** [UserPermission.has_permission]; comparing a [str] with an [int] raises. *)
Definition has_permission (user_id : Z) (min_permission max_permission : Z)
  : M UserPermission bool :=
  λ p, match users p !! user_id with
       | None => (Ok false, p)
       | Some (PInt v) => (Ok ((v >=? min_permission) && (v <=? max_permission)), p)
       | Some (PStr _) => (Raise TypeError, p)
       end.

(** The cache holds for every user the permission that the older class
    holds. *)
Definition mirrors (p : UserPermission) (c : UserCache) : Prop :=
  ∀ id, users p !! id = permission <$> Cache.users c !! id.

End Permission.

(** ** [uniland/db/tables.py]: the search text of a submission *)

Module Tables.
Import PyStr.

(** [str(n)] for an [int]. *)
Definition str_of_int (n : Z) : list N :=
  of_string (DecimalString.NilZero.string_of_int (Z.to_int n)).

(** [class User]; [access_level] is the value of the member of [UserLevel],
    an enumeration that the module imports. *)
Record User := mkTUser {
  user_id : Z;
  access_level : Z;
  last_step : list N
}.

(** The fields of [class Document] that [update_search_text] reads;
    [file_type] is the value of the member of [DocType]. *)
Record DocumentFields := mkDocument {
  file_type : list N;
  doc_course : list N;
  doc_professor : list N;
  writer : list N;
  doc_semester_year : Z
}.

(** The fields of [class Media] that [update_search_text] reads. *)
Record MediaFields := mkMedia {
  media_course : list N;
  media_professor : list N;
  media_semester_year : Z
}.

(** The class of a submission object and the fields of that class. *)
Inductive Variant_ :=
| IsSubmission
| IsDocument (d : DocumentFields)
| IsProfile (title : list N)
| IsMedia (m : MediaFields).

(** [class Submission]: the columns its methods read or assign, and the
    subclass part. [search_text] is [None] until it is assigned. *)
Record Submission := mkSubmission {
  is_confirmed : bool;
  admin : option User;
  university : list N;
  faculty : list N;
  search_text : option (list N);
  variant : Variant_
}.

Inductive error :=
| RuntimeError
| NotImplementedError.

(** The literals of the module. *)
Definition unset : list N := [1606; 1575; 1605; 1588; 1582; 1589]%N.
Definition w_dars : list N := [1583; 1585; 1587]%N.
Definition w_ostad : list N := [1575; 1587; 1578; 1575; 1583]%N.
Definition w_nevisande : list N := [1606; 1608; 1740; 1587; 1606; 1583; 1607]%N.
Definition w_sal : list N := [1587; 1575; 1604]%N.
Definition w_daneshkade : list N := [1583; 1575; 1606; 1588; 1705; 1583; 1607]%N.
Definition w_daneshgah : list N := [1583; 1575; 1606; 1588; 1711; 1575; 1607]%N.
Definition w_ettelaat : list N := [1575; 1591; 1604; 1575; 1593; 1575; 1578]%N.
Definition w_film : list N := [1601; 1740; 1604; 1605]%N.

(** [f" {label} {value}"] *)
Definition labelled (label value : list N) : list N :=
  32%N :: label ++ 32%N :: value.

(** [text += part] when [cond], as the [if] statements of the three methods
    do. *)
Definition add_if (cond : bool) (part text : list N) : list N :=
  if cond then text ++ part else text.

(** [Document.update_search_text], the text it assigns. *)
Definition document_text (d : DocumentFields) (faculty university : list N)
  : list N :=
  let text := file_type d in
  let text := add_if (bool_decide (doc_course d ≠ unset))
                (labelled w_dars (doc_course d)) text in
  let text := add_if (bool_decide (doc_professor d ≠ unset))
                (labelled w_ostad (doc_professor d)) text in
  let text := add_if (bool_decide (writer d ≠ unset))
                (labelled w_nevisande (writer d)) text in
  let text := add_if (bool_decide (doc_semester_year d ≠ 0))
                (labelled w_sal (str_of_int (doc_semester_year d))) text in
  let text := add_if (bool_decide (faculty ≠ unset))
                (labelled w_daneshkade faculty) text in
  add_if (bool_decide (university ≠ unset))
    (labelled w_daneshgah university) text.

(** [Profile.update_search_text], the text it assigns. *)
Definition profile_text (title faculty university : list N) : list N :=
  let text := w_ettelaat ++ 32%N :: title in
  let text := add_if (bool_decide (faculty ≠ unset))
                (labelled w_daneshkade faculty) text in
  add_if (bool_decide (university ≠ unset))
    (labelled w_daneshgah university) text.

(** [Media.update_search_text], the text it assigns. *)
Definition media_text (m : MediaFields) (faculty university : list N) : list N :=
  let text := w_film ++ 32%N :: w_dars ++ 32%N :: media_course m
              ++ labelled w_ostad (media_professor m) in
  let text := add_if (bool_decide (faculty ≠ unset))
                (labelled w_daneshkade faculty) text in
  let text := add_if (bool_decide (media_semester_year m ≠ 0))
                (labelled w_sal (str_of_int (media_semester_year m))) text in
  add_if (bool_decide (university ≠ unset))
    (labelled w_daneshgah university) text.

Definition set_search_text (t : list N) (s : Submission) : Submission :=
  mkSubmission (is_confirmed s) (admin s) (university s) (faculty s) (Some t)
    (variant s).

(** [update_search_text] of the class of the object; the one of
    [Submission] itself raises. [None] stands for a normal return. *)
Definition update_search_text (s : Submission) : option error * Submission :=
  match variant s with
  | IsSubmission => (Some NotImplementedError, s)
  | IsDocument d =>
      (None, set_search_text (document_text d (faculty s) (university s)) s)
  | IsProfile title =>
      (None, set_search_text (profile_text title (faculty s) (university s)) s)
  | IsMedia m =>
      (None, set_search_text (media_text m (faculty s) (university s)) s)
  end.

(** [Submission.confirm]; [user] may be [None]. *)
Definition confirm (user : option User) (s : Submission)
  : option error * Submission :=
  match user with
  | None => (Some RuntimeError, s)
  | Some u =>
      if access_level u <? 2 then (Some RuntimeError, s)
      else
        update_search_text
          (mkSubmission true (Some u) (university s) (faculty s)
             (search_text s) (variant s))
  end.

(** The phone number in [Profile.user_display]. [f] moves a leading [+] to
    the end of a token; [s[0]] raises [IndexError] on an empty token, which
    [None] stands for. *)
Definition move_plus (s : list N) : option (list N) :=
  match s with
  | [] => None
  | c :: s' => if (c =? 43)%N then Some (s' ++ [43%N]) else Some s
  end.

(** [' '.join(l)] *)
Fixpoint join_space (l : list (list N)) : list N :=
  match l with
  | [] => []
  | [x] => x
  | x :: l' => x ++ 32%N :: join_space l'
  end.

(** [' '.join(list(map(f, self.phone_number.split()[::-1])))] *)
Definition pretty_phone_number (phone_number : list N) : option (list N) :=
  join_space <$> mapM move_plus (reverse (split phone_number)).


End Tables.


(** ** Further statements on the engine *)

Module SearchMore.
Import PyStr Search.

(** The text and the type of every record of [subs] are in normal form:
    the text is what [clean_text] returns, the type has no whitespace
    around it. *)
Definition stored_normalized (e : SearchEngine) : Prop :=
  ∀ i a, subs e !! i = Some a →
         clean_text (search_text (heap e !!! a)) = search_text (heap e !!! a) ∧
         strip (rec_type (heap e !!! a)) = rec_type (heap e !!! a).

End SearchMore.


(** ** Further statements on the user cache *)

Module CacheMore.
Import PyStr Cache.

(** The number a permission stands for: itself, or the entry of
    [permission_values] under its name; a name that is not in the table
    stands for none. *)
Definition ordinal_of (p : pyval) : option Z :=
  match p with
  | PInt n => Some n
  | PStr name => dict_get permission_values name
  end.

(** A permission of the domain: one of the names [Ordinary], [Editor],
    [Admin], or one of the numbers 1, 2, 3. *)
Definition valid_permission (p : pyval) : Prop :=
  ∃ v, ordinal_of p = Some v ∧ 1 ≤ v ≤ 3.

(** Every stored permission is one of the numbers 1, 2, 3. *)
Definition permissions_in_range (c : UserCache) : Prop :=
  ∀ id u, users c !! id = Some u → ∃ v, permission u = PInt v ∧ 1 ≤ v ≤ 3.

(** The states of a cache that starts empty and is given permissions of the
    domain. *)
Inductive built (lower : list N → list N) : UserCache → Prop :=
| built_init : built lower Cache.init
| built_add_user c id p step :
    built lower c → valid_permission p →
    built lower (exec (add_user lower id p step) c)
| built_update_user_permission c id p :
    built lower c → valid_permission p →
    built lower (exec (update_user_permission id p) c)
| built_update_user_step c id step :
    built lower c → built lower (exec (update_user_step lower id step) c)
| built_remove_user c id :
    built lower c → built lower (exec (remove_user id) c).


End CacheMore.


(** * Properties *)

(** ** Strings *)

Module PyStrFacts.
Import PyStr.

Lemma replace_single (k v : N) (s : list N) :
  replace [k] [v] s = List.map (λ c, if (c =? k)%N then v else c) s.
Proof.
  unfold replace. induction s as [|c s IH]; [done|].
  cbn [replace_from starts_with List.map List.length].
  rewrite (N.eqb_sym k c). destruct (c =? k)%N; cbn; by rewrite IH.
Qed.

Lemma lstrip_head (s : list N) :
  match lstrip s with [] => True | c :: _ => is_space c = false end.
Proof.
  induction s as [|c s IH]; [done|]. cbn.
  destruct (is_space c) eqn:E; [done|]. by rewrite E.
Qed.

Lemma lstrip_nonspace (c : N) (s : list N) :
  is_space c = false → lstrip (c :: s) = c :: s.
Proof. intros E. cbn. by rewrite E. Qed.

Lemma rstrip_cons (c : N) (s : list N) :
  rstrip (c :: s) =
  match rstrip s with
  | [] => if is_space c then [] else [c]
  | r => c :: r
  end.
Proof. done. Qed.

Lemma rstrip_idemp (s : list N) : rstrip (rstrip s) = rstrip s.
Proof.
  induction s as [|c s IH]; [done|].
  rewrite rstrip_cons. destruct (rstrip s) as [|d r] eqn:E.
  - destruct (is_space c) eqn:Ec; [done|]. cbn. by rewrite Ec.
  - rewrite rstrip_cons, IH. done.
Qed.

Lemma lstrip_idemp (s : list N) : lstrip (lstrip s) = lstrip s.
Proof.
  induction s as [|c s IH]; [done|]. cbn.
  destruct (is_space c) eqn:E; [done|]. cbn. by rewrite E.
Qed.

Lemma lstrip_rstrip (s : list N) : lstrip (rstrip s) = rstrip (lstrip s).
Proof.
  induction s as [|c s IH]; [done|].
  destruct (is_space c) eqn:Ec.
  - cbn [lstrip]. rewrite Ec, <- IH, rstrip_cons.
    destruct (rstrip s) as [|d r]; cbn [lstrip]; by rewrite Ec.
  - rewrite (lstrip_nonspace c s Ec), rstrip_cons.
    destruct (rstrip s) as [|d r]; rewrite ?Ec; by apply lstrip_nonspace.
Qed.

Lemma strip_idemp (s : list N) : strip (strip s) = strip s.
Proof.
  unfold strip. by rewrite lstrip_rstrip, rstrip_idemp, lstrip_idemp.
Qed.

Section map_strip.
Variable f : N → N.
Hypothesis f_space : ∀ c, is_space (f c) = is_space c.

Lemma lstrip_map (s : list N) : lstrip (List.map f s) = List.map f (lstrip s).
Proof.
  induction s as [|c s IH]; [done|]. cbn.
  rewrite f_space. by destruct (is_space c).
Qed.

Lemma rstrip_map (s : list N) : rstrip (List.map f s) = List.map f (rstrip s).
Proof.
  induction s as [|c s IH]; [done|].
  cbn [List.map]. rewrite !rstrip_cons, IH, f_space.
  destruct (rstrip s); [by destruct (is_space c)|done].
Qed.

Lemma strip_map (s : list N) : strip (List.map f s) = List.map f (strip s).
Proof. unfold strip. by rewrite lstrip_map, rstrip_map. Qed.
End map_strip.

Example replace_overlap :
  replace (of_string "aa") (of_string "b") (of_string "aaa") = of_string "ba".
Proof. reflexivity. Qed.

Example replace_empty_old :
  replace [] (of_string "-") (of_string "abc") = of_string "-a-b-c-".
Proof. reflexivity. Qed.

Example strip_both_ends :
  strip (of_string "  ab  cd e ") = of_string "ab  cd e".
Proof. reflexivity. Qed.

Example split_runs :
  split (of_string "  ab  cd e ") = [of_string "ab"; of_string "cd"; of_string "e"].
Proof. reflexivity. Qed.

(** [lstrip] drops a prefix of whitespace and stops at the first character
    that is not whitespace. *)
Lemma lstrip_spec (s : list N) :
  ∃ l, s = l ++ lstrip s ∧ Forall (λ c, is_space c = true) l ∧
       match lstrip s with [] => True | c :: _ => is_space c = false end.
Proof.
  induction s as [|c s (l & Hs & Hl & Hh)]; [by exists []|].
  cbn [lstrip]. destruct (is_space c) eqn:E.
  - exists (c :: l). split; [by rewrite Hs at 1|]. split; [by constructor|done].
  - by exists [].
Qed.

(** [rstrip] drops a suffix of whitespace and stops at the last character
    that is not whitespace. *)
Lemma rstrip_spec (s : list N) :
  ∃ r, s = rstrip s ++ r ∧ Forall (λ c, is_space c = true) r ∧
       match last (rstrip s) with None => rstrip s = [] | Some c => is_space c = false end.
Proof.
  induction s as [|c s (r & Hs & Hr & Hh)]; [by exists []|].
  rewrite rstrip_cons. destruct (rstrip s) as [|d t] eqn:E.
  - destruct (is_space c) eqn:Ec.
    + exists (c :: r). cbn in Hs. subst s. split; [done|]. split; [by constructor|done].
    + exists r. cbn in Hs. subst s. by split.
  - exists r. split; [by rewrite Hs at 1|]. split; [done|].
    rewrite last_cons_cons. destruct (last (d :: t)); [done|discriminate Hh].
Qed.

(** The tokens [split] gives are not empty and hold no whitespace. *)
Lemma split_from_tokens (cur s : list N) :
  Forall (λ c, is_space c = false) cur →
  Forall (λ w, w ≠ [] ∧ Forall (λ c, is_space c = false) w) (split_from cur s).
Proof.
  revert cur. induction s as [|c s IH]; intros cur Hcur; cbn [split_from].
  - destruct cur as [|d cur]; [constructor|].
    constructor; [|constructor]. split.
    + intros Hnil. apply (f_equal List.length) in Hnil.
      rewrite length_reverse in Hnil. done.
    + by apply Forall_reverse.
  - destruct (is_space c) eqn:Ec.
    + destruct cur as [|d cur]; [by apply IH|].
      constructor; [|by apply IH]. split.
      * intros Hnil. apply (f_equal List.length) in Hnil.
        rewrite length_reverse in Hnil. done.
      * by apply Forall_reverse.
    + apply IH. by constructor.
Qed.

Lemma split_tokens (s w : list N) :
  w ∈ split s → w ≠ [] ∧ Forall (λ c, is_space c = false) w.
Proof.
  intros Hw. assert (Forall (λ c, is_space c = false) []) as Hnil by constructor.
  pose proof (split_from_tokens [] s Hnil) as H.
  rewrite Forall_forall in H. by apply H.
Qed.


(** *** [split] and concatenation *)

Lemma split_from_nil (cur : list N) :
  split_from cur [] = match cur with [] => [] | _ => [reverse cur] end.
Proof. done. Qed.

Lemma split_from_app_space (cur s1 s2 : list N) (c : N) :
  is_space c = true →
  split_from cur (s1 ++ c :: s2) = split_from cur s1 ++ split s2.
Proof.
  intros Hc. revert cur. induction s1 as [|d s1 IH]; intros cur.
  - cbn [app split_from]. rewrite Hc. by destruct cur.
  - cbn [app split_from]. destruct (is_space d).
    + destruct cur; cbn [app]; by rewrite IH.
    + apply IH.
Qed.

(** A whitespace character between two texts separates their tokens. *)
Lemma split_app_space (s1 s2 : list N) (c : N) :
  is_space c = true → split (s1 ++ c :: s2) = split s1 ++ split s2.
Proof. apply split_from_app_space. Qed.

Lemma split_from_word (cur w s : list N) :
  Forall (λ c, is_space c = false) w →
  split_from cur (w ++ s) = split_from (reverse w ++ cur) s.
Proof.
  intros Hw. revert cur. induction Hw as [|c w Hc _ IH]; intros cur; [done|].
  cbn [app split_from]. rewrite Hc, IH, reverse_cons, <- app_assoc. done.
Qed.

(** A text without whitespace that is not empty is one token. *)
Lemma split_word (w : list N) :
  w ≠ [] → Forall (λ c, is_space c = false) w → split w = [w].
Proof.
  intros Hne Hw. unfold split.
  rewrite <- (app_nil_r w) at 1. rewrite split_from_word by done.
  rewrite app_nil_r, split_from_nil.
  destruct (reverse w) eqn:E.
  - apply (f_equal reverse) in E. rewrite reverse_involutive in E. done.
  - by rewrite <- E, reverse_involutive.
Qed.

Lemma split_from_blank (cur r : list N) :
  Forall (λ c, is_space c = true) r → split_from cur r = split_from cur [].
Proof.
  intros Hr. revert cur. induction Hr as [|c r Hc _ IH]; intros cur; [done|].
  cbn [split_from]. rewrite Hc, (IH []). by destruct cur.
Qed.

Lemma split_from_app_blank (cur s r : list N) :
  Forall (λ c, is_space c = true) r → split_from cur (s ++ r) = split_from cur s.
Proof.
  intros Hr. revert cur. induction s as [|d s IH]; intros cur.
  - by apply split_from_blank.
  - cbn [app split_from]. destruct (is_space d); [|apply IH].
    destruct cur; by rewrite IH.
Qed.

Lemma split_lstrip (s : list N) : split (lstrip s) = split s.
Proof.
  unfold split. induction s as [|c s IH]; [done|].
  cbn [lstrip]. destruct (is_space c) eqn:E.
  - cbn [split_from]. by rewrite E.
  - done.
Qed.

Lemma split_rstrip (s : list N) : split (rstrip s) = split s.
Proof.
  destruct (rstrip_spec s) as (r & Hs & Hr & _).
  rewrite Hs at 2. unfold split. by rewrite split_from_app_blank.
Qed.

(** Trimming a text keeps its tokens. *)
Lemma split_strip (s : list N) : split (strip s) = split s.
Proof. unfold strip. by rewrite split_rstrip, split_lstrip. Qed.

Lemma reverse_map (f : N → N) (l : list N) :
  reverse (List.map f l) = List.map f (reverse l).
Proof.
  induction l as [|x l IH]; [done|].
  cbn [List.map]. by rewrite !reverse_cons, IH, List.map_app.
Qed.

Section map_split.
Variable f : N → N.
Hypothesis f_space : ∀ c, is_space (f c) = is_space c.

Lemma split_from_map (cur s : list N) :
  split_from (List.map f cur) (List.map f s)
  = List.map (List.map f) (split_from cur s).
Proof.
  revert cur. induction s as [|c s IH]; intros cur.
  - cbn [List.map split_from]. destruct cur as [|d cur]; [done|].
    cbn [List.map]. f_equal.
    change (f d :: List.map f cur) with (List.map f (d :: cur)).
    apply reverse_map.
  - cbn [List.map split_from]. rewrite f_space. destruct (is_space c).
    + destruct cur as [|d cur]; [apply (IH [])|].
      cbn [List.map]. f_equal; [|apply (IH [])].
      change (f d :: List.map f cur) with (List.map f (d :: cur)).
      apply reverse_map.
    + apply (IH (c :: cur)).
Qed.

(** A character map that keeps whitespace apart from the rest maps the
    tokens one by one. *)
Lemma split_map (s : list N) :
  split (List.map f s) = List.map (List.map f) (split s).
Proof. apply (split_from_map []). Qed.
End map_split.


(** [strip] takes whitespace, and nothing else, off the two ends, and
    leaves none at either end. *)
Lemma strip_spec (s : list N) :
  ∃ l r, s = l ++ strip s ++ r ∧
         Forall (λ c, is_space c = true) l ∧
         Forall (λ c, is_space c = true) r ∧
         (∀ c, head (strip s) = Some c → is_space c = false) ∧
         (∀ c, last (strip s) = Some c → is_space c = false).
Proof.
  destruct (lstrip_spec s) as (l & Hs & Hl & Hh).
  destruct (rstrip_spec (lstrip s)) as (r & Ht & Hr & Hlast).
  exists l, r. unfold strip. split; [by rewrite <- Ht|].
  split; [done|]. split; [done|]. split.
  - intros c Hc. destruct (rstrip (lstrip s)) as [|d t] eqn:E; [done|].
    cbn in Hc. injection Hc as ->. rewrite Ht in Hh. exact Hh.
  - intros c Hc. by rewrite Hc in Hlast.
Qed.

End PyStrFacts.

(** ** The search engine *)

Module SearchFacts.
Import PyStr PyStrFacts Search.

(** *** The normalizer *)

Ltac case_char c :=
  repeat match goal with
         | |- context [(c =? ?k)%N] =>
             destruct (N.eqb_spec c k) as [->|?]; [reflexivity|]
         end.

Ltac char_neq c :=
  repeat match goal with
         | H : c ≠ ?k |- context [(c =? ?k)%N] =>
             rewrite (proj2 (N.eqb_neq c k) H)
         end.

Lemma fold_char_space (c : N) : is_space (fold_char c) = is_space c.
Proof. unfold fold_char. case_char c. reflexivity. Qed.

Lemma fold_char_idemp (c : N) : fold_char (fold_char c) = fold_char c.
Proof.
  unfold fold_char at 2 3. case_char c.
  unfold fold_char. char_neq c. reflexivity.
Qed.

Lemma alts_fold_char (c : N) :
  foldl (λ d kv, match kv with
                 | ([k], [v]) => if (d =? k)%N then v else d
                 | _ => d
                 end) c alts = fold_char c.
Proof.
  unfold fold_char, alts. cbn [foldl]. case_char c.
  char_neq c. reflexivity.
Qed.

Lemma clean_text_normalize (text : list N) : clean_text text = normalize text.
Proof.
  unfold clean_text, normalize, alts. cbn [foldl fst snd].
  rewrite !replace_single, !List.map_map. f_equal.
  apply List.map_ext. intros c. rewrite <- alts_fold_char. reflexivity.
Qed.

Lemma clean_text_idemp (text : list N) :
  clean_text (clean_text text) = clean_text text.
Proof.
  rewrite !clean_text_normalize. unfold normalize.
  rewrite (strip_map fold_char fold_char_space), strip_idemp.
  rewrite <- (strip_map fold_char fold_char_space), List.map_map. f_equal.
  apply List.map_ext, fold_char_idemp.
Qed.

(** *** The methods, run *)

Lemma posting_unfold (e : SearchEngine) (w : list N) :
  posting e w = posting_of (keywords e) w.
Proof. reflexivity. Qed.

Lemma posting_of_insert (kw : gmap (list N) (gset loc)) w w' s :
  posting_of (<[w := s]> kw) w' = if decide (w = w') then s else posting_of kw w'.
Proof.
  unfold posting_of. rewrite lookup_insert. by case_decide.
Qed.

Lemma posting_of_delete (kw : gmap (list N) (gset loc)) w w' :
  posting_of (delete w kw) w' = if decide (w = w') then ∅ else posting_of kw w'.
Proof.
  unfold posting_of. rewrite lookup_delete. by case_decide.
Qed.

Lemma index_body_run (a : loc) (w : list N) (e : SearchEngine) :
  index_body a w e = (Ok tt, set_keywords (index_word a (keywords e) w) e).
Proof.
  unfold index_body, index_word, posting_of, mbind, M_bind, bind, kw_has, kw_new,
    kw_add, ret, set_keywords.
  destruct (keywords e !! w) as [s|] eqn:E; cbn.
  - by rewrite E.
  - by rewrite lookup_insert_eq, insert_insert_eq.
Qed.

Lemma index_loop_run (a : loc) (ws : list (list N)) (e : SearchEngine) :
  for_each ws (index_body a) e
  = (Ok tt, set_keywords (foldl (index_word a) (keywords e) ws) e).
Proof.
  revert e. induction ws as [|w ws IH]; intros e.
  - by destruct e.
  - cbn [for_each foldl]. unfold bind. rewrite index_body_run, IH. done.
Qed.

Lemma index_record_run (id : Z) (st ty : list N) (lk : Z) (e : SearchEngine) :
  index_record id st ty lk e
  = (Ok tt,
     mkEngine
       (<[fresh (dom (heap e)) := mkRecord id (clean_text st) (strip ty) lk]> (heap e))
       (<[id := fresh (dom (heap e))]> (subs e))
       (foldl (index_word (fresh (dom (heap e)))) (keywords e)
          (split (clean_text st)))).
Proof.
  unfold index_record, mbind, M_bind, bind, new_Record, subs_set.
  cbn. by rewrite index_loop_run.
Qed.

Lemma remove_body_run (a : loc) (w : list N) (e : SearchEngine) :
  remove_body a w e
  = if retract_ok a (keywords e) w
    then (Ok tt, set_keywords (retract_word a (keywords e) w) e)
    else (Raise (KeyError (KObj a)), e).
Proof.
  unfold remove_body, retract_ok, retract_word, mbind, M_bind, bind, kw_has,
    kw_remove, kw_len, kw_del, ret, set_keywords.
  destruct (keywords e !! w) as [s|] eqn:E; cbn; [|by destruct e].
  rewrite E. destruct (bool_decide (a ∈ s)); cbn; [|done].
  rewrite lookup_insert_eq.
  destruct (size (s ∖ {[a]}) =? 0)%nat; cbn; [|done].
  by rewrite lookup_insert_eq, delete_insert_eq.
Qed.

Lemma remove_loop_run (a : loc) (ws : list (list N)) (e : SearchEngine) :
  for_each ws (remove_body a) e
  = ((retract_words a (keywords e) ws).1,
     set_keywords (retract_words a (keywords e) ws).2 e).
Proof.
  revert e. induction ws as [|w ws IH]; intros e.
  - by destruct e.
  - cbn [for_each retract_words]. unfold bind. rewrite remove_body_run.
    destruct (retract_ok a (keywords e) w); [|by destruct e].
    by rewrite IH.
Qed.

Lemma remove_record_run (id : Z) (e : SearchEngine) :
  remove_record id e
  = match subs e !! id with
    | None => (Raise (KeyError (KInt id)), e)
    | Some a =>
        let r := retract_words a (keywords e) (split (search_text (heap e !!! a))) in
        (match r.1 with Ok _ => Ok a | Raise x => Raise x end,
         mkEngine (heap e) (delete id (subs e)) r.2)
    end.
Proof.
  unfold remove_record, mbind, M_bind, bind, subs_pop, deref.
  destruct (subs e !! id) as [a|]; [|done].
  cbn. rewrite remove_loop_run. cbn.
  by destruct (retract_words _ _ _).1 as [[]|].
Qed.


Lemma deref_run (a : loc) (e : SearchEngine) (r : Rec) :
  heap e !! a = Some r → deref a e = (Ok r, e).
Proof. intros Er. unfold deref. by rewrite (lookup_total_correct _ _ _ Er). Qed.

Lemma assign_run (a : loc) (f : Rec → Rec) (e : SearchEngine) (r : Rec) :
  heap e !! a = Some r →
  assign a f e = (Ok tt, set_heap (<[a := f r]> (heap e)) e).
Proof.
  intros Er. unfold assign. do 2 f_equal.
  apply map_eq. intros b. rewrite lookup_alter, lookup_insert.
  destruct (decide (a = b)) as [<-|]; [by rewrite Er|done].
Qed.

Lemma update_record_run (id : Z) (st ty : option (list N)) (lk : Z)
    (e : SearchEngine) (a : loc) (r : Rec) :
  subs e !! id = Some a → heap e !! a = Some r →
  update_record id st ty lk e
  = let rw := retract_words a (keywords e) (split (search_text r)) in
    match rw.1 with
    | Raise x => (Raise x, mkEngine (heap e) (delete id (subs e)) rw.2)
    | Ok _ =>
        index_record (rec_id r) (default (search_text r) st)
          (default (rec_type r) ty) (if lk =? -1 then likes r else lk)
          (mkEngine (<[a := merged st ty lk r]> (heap e)) (delete id (subs e)) rw.2)
    end.
Proof.
  intros Ea Er. unfold update_record, mbind, M_bind, bind.
  rewrite remove_record_run, Ea. cbn zeta.
  rewrite (lookup_total_correct _ _ _ Er).
  destruct (retract_words a (keywords e) (split (search_text r))) as [[[]|x] kw'];
    cbn [fst snd]; [|done].
  set (e1 := mkEngine (heap e) (delete id (subs e)) kw').
  rewrite (deref_run a e1 r Er).
  erewrite (assign_run a _ e1 r Er).
  set (r1 := with_search_text _ r).
  set (e2 := set_heap _ e1).
  assert (heap e2 !! a = Some r1) as E2 by apply lookup_insert_eq.
  rewrite (deref_run a e2 r1 E2), (assign_run a _ e2 r1 E2).
  set (r2 := with_type _ r1).
  set (e3 := set_heap _ e2).
  assert (heap e3 !! a = Some r2) as E3 by apply lookup_insert_eq.
  rewrite (deref_run a e3 r2 E3), (assign_run a _ e3 r2 E3).
  set (r3 := with_likes _ r2).
  set (e4 := set_heap _ e3).
  assert (heap e4 !! a = Some r3) as E4 by apply lookup_insert_eq.
  rewrite (deref_run a e4 r3 E4).
  assert (r3 = merged st ty lk r) as ->.
  { unfold r3, r2, r1, merged. by destruct st, ty. }
  assert (e4 = mkEngine (<[a := merged st ty lk r]> (heap e)) (delete id (subs e)) kw')
    as ->.
  { unfold e4, e3, e2, e1, set_heap. cbn [heap subs keywords].
    by rewrite !insert_insert_eq. }
  reflexivity.
Qed.

Lemma increase_likes_run (id : Z) (e : SearchEngine) (a : loc) (r : Rec) :
  subs e !! id = Some a → heap e !! a = Some r →
  increase_likes id e
  = (Ok tt, set_heap (<[a := with_likes (likes r + 1) r]> (heap e)) e).
Proof.
  intros Ea Er. unfold increase_likes, mbind, M_bind, bind, subs_get.
  by rewrite Ea, (deref_run a e r Er), (assign_run a _ e r Er).
Qed.

Lemma decrease_likes_run (id : Z) (e : SearchEngine) (a : loc) (r : Rec) :
  subs e !! id = Some a → heap e !! a = Some r →
  decrease_likes id e
  = (Ok tt, set_heap (<[a := with_likes (likes r - 1) r]> (heap e)) e).
Proof.
  intros Ea Er. unfold decrease_likes, mbind, M_bind, bind, subs_get.
  by rewrite Ea, (deref_run a e r Er), (assign_run a _ e r Er).
Qed.

Lemma increase_likes_absent (id : Z) (e : SearchEngine) :
  subs e !! id = None → increase_likes id e = (Raise (KeyError (KInt id)), e).
Proof.
  intros Ea. unfold increase_likes, mbind, M_bind, bind, subs_get. by rewrite Ea.
Qed.

Lemma decrease_likes_absent (id : Z) (e : SearchEngine) :
  subs e !! id = None → decrease_likes id e = (Raise (KeyError (KInt id)), e).
Proof.
  intros Ea. unfold decrease_likes, mbind, M_bind, bind, subs_get. by rewrite Ea.
Qed.

Lemma remove_record_absent (id : Z) (e : SearchEngine) :
  subs e !! id = None → remove_record id e = (Raise (KeyError (KInt id)), e).
Proof. intros Ea. by rewrite remove_record_run, Ea. Qed.

Lemma update_record_absent (id : Z) (st ty : option (list N)) (lk : Z)
    (e : SearchEngine) :
  subs e !! id = None →
  update_record id st ty lk e = (Raise (KeyError (KInt id)), e).
Proof.
  intros Ea. unfold update_record, mbind, M_bind, bind.
  by rewrite remove_record_absent.
Qed.


(** *** The two loops *)

Lemma posting_index_word (a : loc) (kw : gmap (list N) (gset loc)) x w b :
  b ∈ posting_of (index_word a kw x) w
  ↔ b ∈ posting_of kw w ∨ (b = a ∧ w = x).
Proof.
  unfold index_word. rewrite posting_of_insert.
  destruct (decide (x = w)) as [->|Hne]; set_solver.
Qed.

Lemma posting_index_words (a : loc) (ws : list (list N)) kw w b :
  b ∈ posting_of (foldl (index_word a) kw ws) w
  ↔ b ∈ posting_of kw w ∨ (b = a ∧ w ∈ ws).
Proof.
  revert kw. induction ws as [|x ws IH]; intros kw; cbn [foldl].
  - set_solver.
  - rewrite IH, posting_index_word, elem_of_cons. tauto.
Qed.

Lemma index_words_nonempty (a : loc) (ws : list (list N)) kw :
  (∀ w s, kw !! w = Some s → s ≠ ∅) →
  ∀ w s, foldl (index_word a) kw ws !! w = Some s → s ≠ ∅.
Proof.
  revert kw. induction ws as [|x ws IH]; intros kw Hkw; cbn [foldl]; [done|].
  apply IH. intros w s. unfold index_word. rewrite lookup_insert.
  destruct (decide (x = w)); [|by apply Hkw]. intros [= <-]. set_solver.
Qed.

Lemma posting_retract_word (a : loc) (kw : gmap (list N) (gset loc)) x w b :
  b ∈ posting_of (retract_word a kw x) w
  ↔ b ∈ posting_of kw w ∧ ¬ (b = a ∧ w = x).
Proof.
  unfold retract_word.
  destruct (kw !! x) as [s|] eqn:E.
  - destruct (size (s ∖ {[a]}) =? 0)%nat eqn:Es.
    + rewrite posting_of_delete.
      destruct (decide (x = w)) as [->|Hne]; [|set_solver].
      apply Nat.eqb_eq, size_empty_iff in Es.
      unfold posting_of. rewrite E. cbn. set_solver.
    + rewrite posting_of_insert.
      destruct (decide (x = w)) as [->|Hne]; [|set_solver].
      unfold posting_of. rewrite E. cbn. set_solver.
  - destruct (decide (x = w)) as [->|Hne]; [|set_solver].
    unfold posting_of. rewrite E. cbn. set_solver.
Qed.

Lemma retract_word_nonempty (a : loc) (kw : gmap (list N) (gset loc)) x :
  (∀ w s, kw !! w = Some s → s ≠ ∅) →
  ∀ w s, retract_word a kw x !! w = Some s → s ≠ ∅.
Proof.
  intros Hkw w s. unfold retract_word.
  destruct (kw !! x) as [sx|] eqn:E; [|by apply Hkw].
  destruct (size (sx ∖ {[a]}) =? 0)%nat eqn:Es.
  - rewrite lookup_delete. destruct (decide (x = w)); [done|by apply Hkw].
  - rewrite lookup_insert. destruct (decide (x = w)); [|by apply Hkw].
    intros [= <-] Hempty. apply Nat.eqb_neq in Es. apply Es.
    by apply size_empty_iff; rewrite Hempty.
Qed.

(** However the loop of [remove_record] ends, it has taken [a] out of the
    sets of the words it got through, a prefix of the words, and changed
    nothing else; it ends well exactly when it got through all of them. *)
Lemma retract_words_posting (a : loc) (ws : list (list N)) kw :
  ∃ seen,
    seen `prefix_of` ws ∧
    (∀ w b, b ∈ posting_of (retract_words a kw ws).2 w
            ↔ b ∈ posting_of kw w ∧ ¬ (b = a ∧ w ∈ seen)) ∧
    ((retract_words a kw ws).1 = Ok tt ∧ seen = ws ∨
     (retract_words a kw ws).1 = Raise (KeyError (KObj a)) ∧ seen ≠ ws).
Proof.
  revert kw. induction ws as [|x ws IH]; intros kw; cbn [retract_words].
  - exists []. split; [done|]. split; [|by left]. set_solver.
  - destruct (retract_ok a kw x) eqn:Eok.
    + destruct (IH (retract_word a kw x)) as (seen & Hpre & Hpost & Hend).
      exists (x :: seen). split; [by apply prefix_cons|]. split.
      * intros w b. rewrite Hpost, posting_retract_word, elem_of_cons. tauto.
      * destruct Hend as [[? ->]|[? ?]]; [by left|right].
        split; [done|congruence].
    + exists []. split; [apply prefix_nil|]. split; [|by right]. set_solver.
Qed.

Lemma retract_words_nonempty (a : loc) (ws : list (list N)) kw :
  (∀ w s, kw !! w = Some s → s ≠ ∅) →
  ∀ w s, (retract_words a kw ws).2 !! w = Some s → s ≠ ∅.
Proof.
  revert kw. induction ws as [|x ws IH]; intros kw Hkw; cbn [retract_words].
  - done.
  - destruct (retract_ok a kw x); [|done].
    by apply IH, retract_word_nonempty.
Qed.

Lemma retract_word_is_Some (a : loc) (kw : gmap (list N) (gset loc)) x w :
  is_Some (retract_word a kw x !! w) → is_Some (kw !! w).
Proof.
  unfold retract_word. destruct (kw !! x) as [s|] eqn:E; [|done].
  destruct (size (s ∖ {[a]}) =? 0)%nat.
  - rewrite lookup_delete. destruct (decide (x = w)); [by intros [? ?]|done].
  - rewrite lookup_insert. destruct (decide (x = w)); [by subst; rewrite E|done].
Qed.

(** The loop ends well when no word is repeated and every word that is a
    key lists [a]. *)
Lemma retract_words_ok (a : loc) (ws : list (list N)) kw :
  NoDup ws →
  (∀ w, w ∈ ws → is_Some (kw !! w) → a ∈ posting_of kw w) →
  (retract_words a kw ws).1 = Ok tt.
Proof.
  revert kw. induction ws as [|x ws IH]; intros kw Hnd Hin; cbn [retract_words].
  - done.
  - apply NoDup_cons in Hnd as [Hx Hnd].
    assert (retract_ok a kw x = true) as ->.
    { unfold retract_ok. destruct (kw !! x) as [s|] eqn:E; [|done].
      apply bool_decide_eq_true.
      specialize (Hin x (list_elem_of_here _ _) (mk_is_Some _ _ E)).
      unfold posting_of in Hin. by rewrite E in Hin. }
    apply IH; [done|]. intros w Hw Hsome%retract_word_is_Some.
    apply posting_retract_word. split.
    + apply Hin; [by apply list_elem_of_further|done].
    + intros [_ ->]. done.
Qed.


(** *** The invariant of the engine *)

Lemma wf_init : wf init.
Proof.
  split; cbn.
  - intros i a. by rewrite lookup_empty.
  - intros w a. unfold posting. cbn. rewrite lookup_empty. set_solver.
  - intros w s. by rewrite lookup_empty.
  - intros i a w. by rewrite lookup_empty.
Qed.

Lemma tokens_of_heap (e1 e2 : SearchEngine) (a : loc) :
  heap e1 !!! a = heap e2 !!! a → tokens_of e1 a = tokens_of e2 a.
Proof. unfold tokens_of. by intros ->. Qed.

Lemma wf_index_record (id : Z) (st ty : list N) (lk : Z) (e : SearchEngine) :
  wf e → wf (exec (index_record id st ty lk) e).
Proof.
  intros [Hs Hk Hn Hl]. unfold exec. rewrite index_record_run. cbn [snd].
  pose proof (is_fresh (dom (heap e))) as Ha.
  set (a := fresh (dom (heap e))) in *.
  assert (∀ b, b ∈ dom (heap e) → b ≠ a) as Hne by (intros b ? ->; done).
  split; cbn [heap subs keywords].
  - intros i b. rewrite dom_insert_L, lookup_insert.
    destruct (decide (id = i)) as [->|Hi].
    + intros [= <-]. rewrite lookup_total_insert_eq. split; [set_solver|done].
    + intros Hb. destruct (Hs i b Hb) as [Hd Hid].
      rewrite lookup_total_insert_ne by (symmetry; by apply Hne).
      split; [set_solver|done].
  - intros w b. unfold posting, tokens_of. cbn [heap keywords].
    fold (posting_of (foldl (index_word a) (keywords e) (split (clean_text st))) w).
    rewrite posting_index_words, dom_insert_L.
    intros [Hb|[-> Hw]].
    + destruct (Hk w b Hb) as [Hd Ht].
      rewrite lookup_total_insert_ne by (symmetry; by apply Hne).
      split; [set_solver|done].
    + rewrite lookup_total_insert_eq. split; [set_solver|done].
  - by apply index_words_nonempty.
  - intros i b w. unfold posting, tokens_of. cbn [heap keywords].
    fold (posting_of (foldl (index_word a) (keywords e) (split (clean_text st))) w).
    rewrite posting_index_words, lookup_insert.
    destruct (decide (id = i)) as [->|Hi].
    + intros [= <-]. rewrite lookup_total_insert_eq. cbn. by right.
    + intros Hb. destruct (Hs i b Hb) as [Hd Hid].
      rewrite lookup_total_insert_ne by (symmetry; by apply Hne).
      intros Hw. left. by apply (Hl i).
Qed.

(** After [remove_record], however it ends, the record it took out of [subs]
    is the only one whose listing has changed. *)
Lemma wf_remove_record (id : Z) (e : SearchEngine) :
  wf e → wf (exec (remove_record id) e).
Proof.
  intros [Hs Hk Hn Hl]. unfold exec. rewrite remove_record_run.
  destruct (subs e !! id) as [a|] eqn:Ea; [|done]. cbn [snd].
  destruct (retract_words_posting a (split (search_text (heap e !!! a)))
              (keywords e)) as (seen & _ & Hpost & _).
  split; cbn [heap subs keywords].
  - intros i b. rewrite lookup_delete.
    destruct (decide (id = i)); [done|]. apply Hs.
  - intros w b. unfold posting, tokens_of. cbn [heap keywords].
    intros [Hb _]%Hpost. by apply Hk.
  - by apply retract_words_nonempty.
  - intros i b w. unfold posting, tokens_of. cbn [heap keywords].
    rewrite lookup_delete. destruct (decide (id = i)) as [|Hi]; [done|].
    intros Hb Hw. apply Hpost. split; [by apply (Hl i)|].
    intros [-> _]. apply Hi.
    destruct (Hs _ _ Ea) as [_ <-]. by destruct (Hs _ _ Hb) as [_ <-].
Qed.


(** Assigning fields of one object keeps the invariant when the id stays and
    either the text stays or no dictionary references the object. *)
Lemma wf_set_record (e : SearchEngine) (a : loc) (r r' : Rec) :
  wf e → heap e !! a = Some r →
  rec_id r' = rec_id r →
  search_text r' = search_text r ∨ ¬ referenced e a →
  wf (set_heap (<[a := r']> (heap e)) e).
Proof.
  intros [Hs Hk Hn Hl] Er Hid Htext.
  assert (dom (<[a := r']> (heap e)) = dom (heap e)) as Hdom.
  { rewrite dom_insert_L. apply elem_of_dom_2 in Er. set_solver. }
  assert (∀ b, referenced e b →
            search_text (<[a := r']> (heap e) !!! b) = search_text (heap e !!! b))
    as Hsame.
  { intros b Hb. destruct (decide (a = b)) as [<-|Hne].
    - rewrite lookup_total_insert_eq, (lookup_total_correct _ _ _ Er).
      by destruct Htext.
    - by rewrite lookup_total_insert_ne. }
  split; cbn [set_heap heap subs keywords].
  - intros i b Hb. rewrite Hdom. destruct (Hs i b Hb) as [Hd <-].
    split; [done|]. destruct (decide (a = b)) as [<-|Hne].
    + by rewrite lookup_total_insert_eq, (lookup_total_correct _ _ _ Er).
    + by rewrite lookup_total_insert_ne.
  - intros w b. unfold posting, tokens_of. cbn [heap keywords].
    intros Hb. rewrite Hdom. destruct (Hk w b Hb) as [Hd Ht].
    split; [done|]. rewrite Hsame; [done|]. right. by exists w.
  - done.
  - intros i b w. unfold posting, tokens_of. cbn [heap keywords].
    intros Hb. rewrite Hsame by (left; by exists i). by apply (Hl i).
Qed.

(** When [remove_record] returns, no dictionary references the record. *)
Lemma removed_unreferenced (id : Z) (e : SearchEngine) (a : loc) :
  wf e → subs e !! id = Some a →
  (retract_words a (keywords e) (tokens_of e a)).1 = Ok tt →
  ¬ referenced
      (mkEngine (heap e) (delete id (subs e))
         (retract_words a (keywords e) (tokens_of e a)).2) a.
Proof.
  intros [Hs Hk Hn Hl] Ea Hok.
  destruct (retract_words_posting a (tokens_of e a) (keywords e))
    as (seen & _ & Hpost & Hend).
  destruct Hend as [[_ ->]|[Hbad _]]; [|congruence].
  intros [[i Hi]|[w Hw]].
  - cbn in Hi. rewrite lookup_delete in Hi.
    destruct (decide (id = i)) as [|Hne]; [done|]. apply Hne.
    destruct (Hs _ _ Ea) as [_ <-]. by destruct (Hs _ _ Hi) as [_ <-].
  - unfold posting in Hw. cbn [keywords] in Hw.
    apply Hpost in Hw as [Hw Hnot]. apply Hnot. split; [done|].
    by apply Hk.
Qed.

Lemma wf_update_record (id : Z) (st ty : option (list N)) (lk : Z)
    (e : SearchEngine) :
  wf e → wf (exec (update_record id st ty lk) e).
Proof.
  intros Hwf. unfold exec.
  destruct (subs e !! id) as [a|] eqn:Ea;
    [|by rewrite update_record_absent].
  destruct (wf_subs e Hwf _ _ Ea) as [[r Er]%elem_of_dom Hid].
  rewrite (update_record_run id st ty lk e a r Ea Er). cbn zeta.
  pose proof (wf_remove_record id e Hwf) as Hwf1.
  pose proof (removed_unreferenced id e a Hwf Ea) as Hunref.
  unfold exec in Hwf1. rewrite remove_record_run, Ea in Hwf1. cbn in Hwf1.
  unfold tokens_of in Hunref.
  rewrite (lookup_total_correct _ _ _ Er) in Hwf1, Hunref.
  destruct (retract_words a (keywords e) (split (search_text r))) as [[[]|x] kw'];
    cbn [fst snd] in *; [|done].
  apply (wf_index_record _ _ _ _
           (mkEngine (<[a:=merged st ty lk r]> (heap e)) (delete id (subs e)) kw')).
  exact (wf_set_record (mkEngine (heap e) (delete id (subs e)) kw') a r
           (merged st ty lk r) Hwf1 Er eq_refl (or_intror (Hunref eq_refl))).
Qed.

Lemma wf_increase_likes (id : Z) (e : SearchEngine) :
  wf e → wf (exec (increase_likes id) e).
Proof.
  intros Hwf. unfold exec.
  destruct (subs e !! id) as [a|] eqn:Ea;
    [|by rewrite increase_likes_absent].
  destruct (wf_subs e Hwf _ _ Ea) as [[r Er]%elem_of_dom Hid].
  rewrite (increase_likes_run id e a r Ea Er).
  apply (wf_set_record e a r); [done|done|done|by left].
Qed.

Lemma wf_decrease_likes (id : Z) (e : SearchEngine) :
  wf e → wf (exec (decrease_likes id) e).
Proof.
  intros Hwf. unfold exec.
  destruct (subs e !! id) as [a|] eqn:Ea;
    [|by rewrite decrease_likes_absent].
  destruct (wf_subs e Hwf _ _ Ea) as [[r Er]%elem_of_dom Hid].
  rewrite (decrease_likes_run id e a r Ea Er).
  apply (wf_set_record e a r); [done|done|done|by left].
Qed.

(** The invariant holds after every sequence of calls. *)
Lemma reachable_wf (e : SearchEngine) : reachable e → wf e.
Proof.
  induction 1 as [|e c _ IH]; [apply wf_init|].
  destruct c; cbn [run_call].
  - by apply wf_index_record.
  - by apply wf_update_record.
  - replace (exec (_ ← remove_record id; ret tt) e)
      with (exec (remove_record id) e); [by apply wf_remove_record|].
    unfold exec, mbind, M_bind, bind, ret.
    by destruct (remove_record id e) as [[?|?] ?].
  - by apply wf_increase_likes.
  - by apply wf_decrease_likes.
Qed.


(** *** A keyword index in step with [subs] *)

Lemma in_sync_init : in_sync init.
Proof. intros w a. unfold posting. cbn. rewrite lookup_empty. set_solver. Qed.

(** [index_record] keeps the index in step when the id is new. *)
Lemma in_sync_index_record (id : Z) (st ty : list N) (lk : Z) (e : SearchEngine) :
  wf e → in_sync e → subs e !! id = None →
  in_sync (exec (index_record id st ty lk) e).
Proof.
  intros Hwf Hsync Hnew. unfold exec. rewrite index_record_run. cbn [snd].
  pose proof (is_fresh (dom (heap e))) as Ha.
  set (a := fresh (dom (heap e))) in *.
  intros w b. unfold posting. cbn [heap subs keywords].
  fold (posting_of (foldl (index_word a) (keywords e) (split (clean_text st))) w).
  rewrite posting_index_words. intros [Hb|[-> Hw]].
  - destruct (wf_keywords e Hwf w b Hb) as [Hd _].
    assert (a ≠ b) as Hne by (intros <-; done).
    rewrite lookup_total_insert_ne by done.
    specialize (Hsync w b Hb). rewrite lookup_insert_ne; [done|].
    intros Heq. rewrite <- Heq in Hsync. congruence.
  - rewrite lookup_total_insert_eq. cbn. by rewrite lookup_insert_eq.
Qed.

(** [remove_record] keeps the index in step when it returns. *)
Lemma in_sync_remove_record (id : Z) (e : SearchEngine) (a : loc) :
  wf e → in_sync e → result (remove_record id) e = Ok a →
  in_sync (exec (remove_record id) e).
Proof.
  intros Hwf Hsync. unfold result, exec. rewrite remove_record_run.
  destruct (subs e !! id) as [a'|] eqn:Ea; [|done]. cbn [fst snd].
  pose proof (removed_unreferenced id e a' Hwf Ea) as Hunref.
  destruct (retract_words_posting a' (tokens_of e a') (keywords e))
    as (seen & _ & Hpost & _).
  unfold tokens_of in *.
  destruct (retract_words a' (keywords e) (split (search_text (heap e !!! a'))))
    as [[[]|x] kw']; cbn [fst snd] in *; [|done].
  intros _ w b Hb. unfold posting in Hb. cbn [heap subs keywords] in *.
  assert (b ≠ a') as Hne.
  { intros ->. apply Hunref; [done|]. right. by exists w. }
  apply Hpost in Hb as [Hb _]. specialize (Hsync w b Hb).
  rewrite lookup_delete_ne; [done|].
  intros Heq. rewrite <- Heq in Hsync. congruence.
Qed.

Lemma in_sync_set_record (e : SearchEngine) (a : loc) (r r' : Rec) :
  in_sync e → heap e !! a = Some r → rec_id r' = rec_id r →
  in_sync (set_heap (<[a := r']> (heap e)) e).
Proof.
  intros Hsync Er Hid w b Hb. cbn [set_heap heap subs].
  specialize (Hsync w b Hb). destruct (decide (a = b)) as [<-|Hne].
  - rewrite lookup_total_insert_eq, Hid.
    by rewrite (lookup_total_correct _ _ _ Er) in Hsync.
  - by rewrite lookup_total_insert_ne.
Qed.


Lemma in_sync_increase_likes (id : Z) (e : SearchEngine) :
  wf e → in_sync e → in_sync (exec (increase_likes id) e).
Proof.
  intros Hwf Hsync. unfold exec.
  destruct (subs e !! id) as [a|] eqn:Ea;
    [|by rewrite increase_likes_absent].
  destruct (wf_subs e Hwf _ _ Ea) as [[r Er]%elem_of_dom Hid].
  rewrite (increase_likes_run id e a r Ea Er).
  by apply (in_sync_set_record e a r).
Qed.

Lemma in_sync_decrease_likes (id : Z) (e : SearchEngine) :
  wf e → in_sync e → in_sync (exec (decrease_likes id) e).
Proof.
  intros Hwf Hsync. unfold exec.
  destruct (subs e !! id) as [a|] eqn:Ea;
    [|by rewrite decrease_likes_absent].
  destruct (wf_subs e Hwf _ _ Ea) as [[r Er]%elem_of_dom Hid].
  rewrite (decrease_likes_run id e a r Ea Er).
  by apply (in_sync_set_record e a r).
Qed.

(** [update_record] keeps the index in step when it returns. *)
Lemma in_sync_update_record (id : Z) (st ty : option (list N)) (lk : Z)
    (e : SearchEngine) :
  wf e → in_sync e → result (update_record id st ty lk) e = Ok tt →
  in_sync (exec (update_record id st ty lk) e).
Proof.
  intros Hwf Hsync. unfold result, exec.
  destruct (subs e !! id) as [a|] eqn:Ea;
    [|by rewrite update_record_absent].
  destruct (wf_subs e Hwf _ _ Ea) as [[r Er]%elem_of_dom Hid].
  rewrite (update_record_run id st ty lk e a r Ea Er). cbn zeta.
  pose proof (wf_remove_record id e Hwf) as Hwf1.
  pose proof (in_sync_remove_record id e a Hwf Hsync) as Hsync1.
  pose proof (removed_unreferenced id e a Hwf Ea) as Hunref.
  unfold result, exec in Hwf1, Hsync1.
  rewrite remove_record_run, Ea in Hwf1, Hsync1. cbn in Hwf1, Hsync1.
  unfold tokens_of in Hunref.
  rewrite (lookup_total_correct _ _ _ Er) in Hwf1, Hsync1, Hunref, Hid.
  destruct (retract_words a (keywords e) (split (search_text r))) as [[[]|x] kw'];
    cbn [fst snd] in *; [|done].
  intros _. rewrite Hid.
  apply (in_sync_index_record _ _ _ _
           (mkEngine (<[a:=merged st ty lk r]> (heap e)) (delete id (subs e)) kw')).
  - exact (wf_set_record (mkEngine (heap e) (delete id (subs e)) kw') a r
             (merged st ty lk r) Hwf1 Er eq_refl (or_intror (Hunref eq_refl))).
  - exact (in_sync_set_record (mkEngine (heap e) (delete id (subs e)) kw') a r
             (merged st ty lk r) (Hsync1 eq_refl) Er eq_refl).
  - cbn. apply lookup_delete_eq.
Qed.


(** *** [search] *)

Lemma sort_insert_perm (key : loc → Z) (x : loc) (l : list loc) :
  sort_insert key x l ≡ₚ x :: l.
Proof.
  induction l as [|y l IH]; cbn; [done|].
  destruct (key y <=? key x); [done|].
  rewrite IH. apply Permutation_swap.
Qed.

Lemma sorted_reverse_perm (key : loc → Z) (l : list loc) :
  sorted_reverse key l ≡ₚ l.
Proof.
  induction l as [|x l IH]; cbn; [done|].
  fold (sorted_reverse key l). by rewrite sort_insert_perm, IH.
Qed.

Lemma sort_insert_sorted (key : loc → Z) (x : loc) (l : list loc) :
  StronglySorted (λ a b, key b ≤ key a) l →
  StronglySorted (λ a b, key b ≤ key a) (sort_insert key x l).
Proof.
  induction 1 as [|y l Hl IH Hy]; cbn.
  - by repeat constructor.
  - destruct (Z.leb_spec (key y) (key x)) as [Hle|Hlt].
    + constructor; [by constructor|].
      constructor; [done|]. eapply Forall_impl; [exact Hy|]. cbn. lia.
    + constructor; [done|].
      rewrite sort_insert_perm. constructor; [lia|done].
Qed.

Lemma sorted_reverse_sorted (key : loc → Z) (l : list loc) :
  StronglySorted (λ a b, key b ≤ key a) (sorted_reverse key l).
Proof.
  induction l as [|x l IH]; cbn; [constructor|].
  by apply sort_insert_sorted.
Qed.

Lemma search_fold_rest (e : SearchEngine) (ws : list (list N)) (R : gset loc) :
  ∃ R', foldl (search_step e) (R, false) ws = (R', false) ∧
        ∀ a, a ∈ R' ↔
             a ∈ R ∧ ∀ w, w ∈ ws → is_Some (keywords e !! w) → a ∈ posting e w.
Proof.
  revert R. induction ws as [|x ws IH]; intros R; cbn [foldl].
  - exists R. split; [done|]. set_solver.
  - unfold search_step at 2.
    destruct (keywords e !! x) as [s|] eqn:Ex; cbn [negb].
    + destruct (IH (R ∩ s)) as (R' & -> & HR'). exists R'. split; [done|].
      intros a. rewrite HR', elem_of_intersection. split.
      * intros [[Ha Hs] Hws]. split; [done|].
        intros w [->|Hw]%elem_of_cons Hsome; [|by apply Hws].
        unfold posting. by rewrite Ex.
      * intros [Ha Hws]. split; [split; [done|]|].
        -- specialize (Hws x (list_elem_of_here _ _) (mk_is_Some _ _ Ex)).
           unfold posting in Hws. by rewrite Ex in Hws.
        -- intros w Hw. apply Hws. by apply list_elem_of_further.
    + destruct (IH R) as (R' & -> & HR'). exists R'. split; [done|].
      intros a. rewrite HR'. split; intros [Ha Hws]; (split; [done|]).
      * intros w [->|Hw]%elem_of_cons Hsome; [|by apply Hws].
        rewrite Ex in Hsome. by destruct Hsome.
      * intros w Hw. apply Hws. by apply list_elem_of_further.
Qed.

Lemma search_fold (e : SearchEngine) (ws : list (list N)) :
  (filter (λ w, is_Some (keywords e !! w)) ws = [] ∧
   foldl (search_step e) (∅, true) ws = (∅, true)) ∨
  (filter (λ w, is_Some (keywords e !! w)) ws ≠ [] ∧
   ∃ R', foldl (search_step e) (∅, true) ws = (R', false) ∧
         ∀ a, a ∈ R' ↔
              ∀ w, w ∈ ws → is_Some (keywords e !! w) → a ∈ posting e w).
Proof.
  induction ws as [|x ws IH]; cbn [foldl]; [by left|].
  unfold search_step at 2 4.
  destruct (keywords e !! x) as [s|] eqn:Ex; cbn [negb].
  - right. split.
    { rewrite filter_cons_True by by rewrite Ex. done. }
    destruct (search_fold_rest e ws s) as (R' & -> & HR'). exists R'.
    split; [done|]. intros a. rewrite HR'. split.
    + intros [Ha Hws] w [->|Hw]%elem_of_cons Hsome; [|by apply Hws].
      unfold posting. by rewrite Ex.
    + intros Hws. split.
      * specialize (Hws x (list_elem_of_here _ _) (mk_is_Some _ _ Ex)).
        unfold posting in Hws. by rewrite Ex in Hws.
      * intros w Hw. apply Hws. by apply list_elem_of_further.
  - rewrite filter_cons_False by (rewrite Ex; by intros [? ?]).
    destruct IH as [[Hf ->]|(Hf & R' & -> & HR')]; [by left|right].
    split; [done|]. exists R'. split; [done|].
    intros a. rewrite HR'. split; intros Hws.
    + intros w [->|Hw]%elem_of_cons Hsome; [|by apply Hws].
      rewrite Ex in Hsome. by destruct Hsome.
    + intros w Hw. apply Hws. by apply list_elem_of_further.
Qed.

Lemma elem_of_present_tokens (e : SearchEngine) (q w : list N) :
  w ∈ present_tokens e q
  ↔ is_Some (keywords e !! w) ∧ w ∈ split (clean_text q).
Proof. unfold present_tokens. by rewrite list_elem_of_filter. Qed.

(** No token of the query is a key: the result is empty. *)
Lemma search_none_present (e : SearchEngine) (q : list N) :
  present_tokens e q = [] → search e q = [].
Proof.
  unfold present_tokens, search. intros Hnone.
  destruct (search_fold e (split (clean_text q)))
    as [[_ ->]|[Hsome _]]; [|done].
  by rewrite elements_empty.
Qed.

(** Some token of the query is a key: the result holds the objects listed
    under every token that is a key. *)
Lemma search_some_present (e : SearchEngine) (q : list N) (a : loc) :
  present_tokens e q ≠ [] →
  a ∈ search e q ↔ ∀ w, w ∈ present_tokens e q → a ∈ posting e w.
Proof.
  unfold search. intros Hsome.
  destruct (search_fold e (split (clean_text q)))
    as [[Hnone _]|(_ & R' & -> & HR')]; [done|].
  rewrite sorted_reverse_perm, elem_of_elements, HR'.
  split.
  - intros H w [? ?]%elem_of_present_tokens. by apply H.
  - intros H w Hw Hk. apply H. by apply elem_of_present_tokens.
Qed.

Lemma search_NoDup (e : SearchEngine) (q : list N) : NoDup (search e q).
Proof.
  unfold search.
  destruct (foldl (search_step e) (∅, true) (split (clean_text q))) as [R f].
  rewrite sorted_reverse_perm. apply NoDup_elements.
Qed.

(** The result is in the order of [likes], larger first. *)
Lemma search_sorted (e : SearchEngine) (q : list N) :
  StronglySorted (λ a b, likes (heap e !!! b) ≤ likes (heap e !!! a)) (search e q).
Proof.
  unfold search.
  destruct (foldl (search_step e) (∅, true) (split (clean_text q))) as [R f].
  apply (sorted_reverse_sorted (λ x, likes (heap e !!! x))).
Qed.


(** *** The properties of the specification *)

(** C8. The normalizer [clean_text] is idempotent; it replaces every
    occurrence of ي, ك, ة, أ, إ, ئ by ی, ک, ه, ا, ا, ی, keeps every other
    character, and then trims leading and trailing whitespace: what it
    returns is the folded text without a run of whitespace at its start
    and one at its end, and it neither starts nor ends with whitespace. *)
Theorem clean_text_idempotent_and_folds :
  (∀ s, clean_text (clean_text s) = clean_text s) ∧
  (∀ s, clean_text s = strip (List.map fold_char s)) ∧
  (fold_char 1610 = 1740 ∧ fold_char 1603 = 1705 ∧ fold_char 1577 = 1607 ∧
   fold_char 1571 = 1575 ∧ fold_char 1573 = 1575 ∧ fold_char 1574 = 1740)%N ∧
  (∀ c, c ∉ [1610; 1603; 1577; 1571; 1573; 1574]%N → fold_char c = c) ∧
  (∀ s, ∃ l r,
     List.map fold_char s = l ++ clean_text s ++ r ∧
     Forall (λ c, is_space c = true) l ∧
     Forall (λ c, is_space c = true) r ∧
     (∀ c, head (clean_text s) = Some c → is_space c = false) ∧
     (∀ c, last (clean_text s) = Some c → is_space c = false)).
Proof.
  split; [apply clean_text_idemp|].
  split; [apply clean_text_normalize|].
  split; [by vm_compute|].
  split.
  - intros c Hc. unfold fold_char.
    repeat match goal with
           | |- context [(c =? ?k)%N] =>
               destruct (N.eqb_spec c k) as [->|?];
               [exfalso; apply Hc; set_solver|]
           end.
    reflexivity.
  - intros s. rewrite clean_text_normalize. unfold normalize.
    apply strip_spec.
Qed.

(** The text [ ي  ك ] comes out as [ی  ک]: folded, trimmed at both ends,
    the whitespace inside kept. *)
Example clean_text_trims :
  clean_text [32; 1610; 32; 32; 1603; 9]%N = [1740; 32; 32; 1705]%N.
Proof. reflexivity. Qed.

(** A query of whitespace only has no token. *)
Lemma blank_query_no_tokens (q : list N) :
  Forall (λ c, is_space c = true) q → split (clean_text q) = [].
Proof.
  intros Hq. rewrite clean_text_normalize. unfold normalize, strip.
  assert (lstrip (List.map fold_char q) = []) as ->; [|done].
  induction Hq as [|c q Hc _ IH]; [done|].
  cbn. by rewrite fold_char_space, Hc.
Qed.

(** C6. A query that normalizes to zero tokens makes [search] return the
    empty sequence, whatever the engine holds. *)
Theorem search_zero_tokens (e : SearchEngine) (q : list N) :
  split (clean_text q) = [] → search e q = [].
Proof.
  intros Hq. apply search_none_present. unfold present_tokens. by rewrite Hq.
Qed.

(** C5. On an id that [subs] does not hold, [update_record],
    [remove_record], [increase_likes] and [decrease_likes] each raise
    [KeyError] on that id, which reaches the caller, and leave the engine as
    it was. *)
Theorem absent_id_raises (e : SearchEngine) (id : Z)
    (st ty : option (list N)) (lk : Z) :
  subs e !! id = None →
  update_record id st ty lk e = (Raise (KeyError (KInt id)), e) ∧
  remove_record id e = (Raise (KeyError (KInt id)), e) ∧
  increase_likes id e = (Raise (KeyError (KInt id)), e) ∧
  decrease_likes id e = (Raise (KeyError (KInt id)), e).
Proof.
  intros Ha. split; [by apply update_record_absent|].
  split; [by apply remove_record_absent|].
  split; [by apply increase_likes_absent|by apply decrease_likes_absent].
Qed.

(** C7. On an id that [subs] holds, [increase_likes] and [decrease_likes]
    return, add 1 to, or take 1 from, the [likes] of that one object, with
    no bound on the value, and change no other field, no other object,
    [subs] or [keywords]. *)
Theorem likes_adjust_frame (e : SearchEngine) (id : Z) (a : loc) (r : Rec) :
  subs e !! id = Some a → heap e !! a = Some r →
  (result (increase_likes id) e = Ok tt ∧
   heap (exec (increase_likes id) e) !! a
   = Some (mkRecord (rec_id r) (search_text r) (rec_type r) (likes r + 1)) ∧
   (∀ b, b ≠ a → heap (exec (increase_likes id) e) !! b = heap e !! b) ∧
   subs (exec (increase_likes id) e) = subs e ∧
   keywords (exec (increase_likes id) e) = keywords e) ∧
  (result (decrease_likes id) e = Ok tt ∧
   heap (exec (decrease_likes id) e) !! a
   = Some (mkRecord (rec_id r) (search_text r) (rec_type r) (likes r - 1)) ∧
   (∀ b, b ≠ a → heap (exec (decrease_likes id) e) !! b = heap e !! b) ∧
   subs (exec (decrease_likes id) e) = subs e ∧
   keywords (exec (decrease_likes id) e) = keywords e).
Proof.
  intros Ea Er. unfold result, exec.
  rewrite (increase_likes_run id e a r Ea Er), (decrease_likes_run id e a r Ea Er).
  cbn [fst snd set_heap heap subs keywords].
  repeat split; try apply lookup_insert_eq;
    intros b Hb; by apply lookup_insert_ne.
Qed.


(** In an engine whose index is in step with [subs], an identity is
    reachable under a token exactly when the token is in the text of its
    record. *)
Lemma in_sync_index_iff (e : SearchEngine) (t : list N) (i : Z) :
  wf e → in_sync e → id_under e t i ↔ token_of_id e t i.
Proof.
  intros Hwf Hsync. split.
  - intros (a & Ha & <-). exists a. split; [by apply (Hsync t)|].
    by apply (wf_keywords e Hwf).
  - intros (a & Ha & Ht). exists a. split; [by apply (wf_live e Hwf i)|].
    by destruct (wf_subs e Hwf _ _ Ha).
Qed.

(** C1, as the code has it. In an engine whose keyword index is in step
    with [subs], [search] normalizes and tokenizes the query and leaves out
    the tokens that are not keys of the index. If none is a key, which
    covers the query without tokens, the result is empty; otherwise the
    result holds, each once, the identities of the records of [subs] whose
    text has every token of the query that is a key. *)
Theorem search_matches_present_tokens (e : SearchEngine) (q : list N) :
  wf e → in_sync e →
  (present_tokens e q = [] → search e q = []) ∧
  (present_tokens e q ≠ [] →
   NoDup (search_ids e q) ∧
   ∀ i, i ∈ search_ids e q
        ↔ ∃ a, subs e !! i = Some a ∧
               ∀ w, w ∈ present_tokens e q → w ∈ tokens_of e a).
Proof.
  intros Hwf Hsync. split; [apply search_none_present|]. intros Hsome.
  assert (∀ a, a ∈ search e q → subs e !! rec_id (heap e !!! a) = Some a)
    as Hlive.
  { intros a Ha. destruct (present_tokens e q) as [|w0 ws] eqn:Ews; [done|].
    apply (Hsync w0). apply (search_some_present e q a); [by rewrite Ews|done|].
    rewrite Ews. apply list_elem_of_here. }
  unfold search_ids. split.
  - apply NoDup_fmap_2_strong; [|apply search_NoDup].
    intros a b Ha Hb Heq. apply Hlive in Ha, Hb. congruence.
  - intros i. rewrite list_elem_of_fmap. split.
    + intros (a & -> & Ha). exists a. split; [by apply Hlive|].
      intros w Hw. apply (wf_keywords e Hwf).
      by apply (search_some_present e q a).
    + intros (a & Ha & Hws). exists a.
      split; [by destruct (wf_subs e Hwf _ _ Ha)|].
      apply search_some_present; [done|].
      intros w Hw. apply (wf_live e Hwf i); [done|by apply Hws].
Qed.

Lemma obs_eq_refl (e : SearchEngine) : obs_eq e e.
Proof. by repeat split. Qed.

Lemma update_merged_run (id : Z) (st ty : option (list N)) (lk : Z)
    (e : SearchEngine) (a : loc) (r : Rec) :
  subs e !! id = Some a → heap e !! a = Some r →
  update_merged id st ty lk e
  = let rw := retract_words a (keywords e) (split (search_text r)) in
    match rw.1 with
    | Raise x => (Raise x, mkEngine (heap e) (delete id (subs e)) rw.2)
    | Ok _ =>
        index_record id (default (search_text r) st)
          (default (rec_type r) ty) (if lk =? -1 then likes r else lk)
          (mkEngine (heap e) (delete id (subs e)) rw.2)
    end.
Proof.
  intros Ea Er. unfold update_merged, mbind, M_bind, bind.
  rewrite remove_record_run, Ea. cbn zeta.
  rewrite (lookup_total_correct _ _ _ Er).
  destruct (retract_words a (keywords e) (split (search_text r))) as [[[]|x] kw'];
    cbn [fst snd]; [|done].
  set (e1 := mkEngine (heap e) (delete id (subs e)) kw').
  by rewrite (deref_run a e1 r Er).
Qed.

(** C3, as the code has it. [update_record] leaves what removing the
    record and indexing it again with the merged fields leaves, where a
    [likes] of [-1] stands for a score that is not provided; on an id that
    [subs] does not hold it raises [KeyError] on that id. *)
Theorem update_record_is_remove_then_index (e : SearchEngine) (id : Z)
    (st ty : option (list N)) (lk : Z) :
  wf e →
  run_eq (update_record id st ty lk e) (update_merged id st ty lk e) ∧
  (subs e !! id = None →
   update_record id st ty lk e = (Raise (KeyError (KInt id)), e)).
Proof.
  intros Hwf. split; [|apply update_record_absent].
  destruct (subs e !! id) as [a|] eqn:Ea.
  2:{ rewrite update_record_absent by done.
      unfold update_merged, mbind, M_bind, bind.
      rewrite remove_record_absent by done. split; [done|apply obs_eq_refl]. }
  destruct (wf_subs e Hwf _ _ Ea) as [[r Er]%elem_of_dom Hid].
  rewrite (update_record_run id st ty lk e a r Ea Er).
  rewrite (update_merged_run id st ty lk e a r Ea Er). cbn zeta.
  pose proof (removed_unreferenced id e a Hwf Ea) as Hunref.
  unfold tokens_of in Hunref.
  rewrite (lookup_total_correct _ _ _ Er) in Hid, Hunref.
  destruct (retract_words a (keywords e) (split (search_text r))) as [[[]|x] kw'];
    cbn [fst snd] in *; [|split; [done|apply obs_eq_refl]].
  specialize (Hunref eq_refl). rewrite Hid, !index_record_run.
  cbn [heap subs keywords].
  assert (dom (<[a:=merged st ty lk r]> (heap e)) = dom (heap e)) as Hdom.
  { rewrite dom_insert_L. apply elem_of_dom_2 in Er. set_solver. }
  rewrite Hdom. set (a' := fresh (dom (heap e))).
  split; [done|]. cbn [snd].
  split; [done|]. split; [done|]. cbn [heap]. split.
  { rewrite !dom_insert_L. apply elem_of_dom_2 in Er. set_solver. }
  intros b Hb. rewrite !lookup_insert.
  destruct (decide (a' = b)) as [|Hne]; [done|].
  destruct (decide (a = b)) as [<-|]; [|done]. exfalso. apply Hunref.
  destruct Hb as [[i Hi]|[w Hw]].
  - left. exists i. cbn [subs] in *. rewrite lookup_insert in Hi.
    destruct (decide (id = i)); [congruence|done].
  - right. exists w. unfold posting in *. cbn [keywords] in *.
    fold (posting_of (foldl (index_word a') kw'
                        (split (clean_text (default (search_text r) st)))) w) in Hw.
    apply posting_index_words in Hw as [Hw|[? _]]; [done|congruence].
Qed.


(** States that [obs_eq] relates answer every query alike. *)
Lemma sort_insert_ext (k1 k2 : loc → Z) (x : loc) (l : list loc) :
  k1 x = k2 x → (∀ y, y ∈ l → k1 y = k2 y) →
  sort_insert k1 x l = sort_insert k2 x l.
Proof.
  intros Hx. induction l as [|y l IH]; intros Hl; cbn; [done|].
  rewrite Hx, (Hl y) by apply list_elem_of_here.
  destruct (k2 y <=? k2 x); [done|]. f_equal. apply IH.
  intros z Hz. by apply Hl, list_elem_of_further.
Qed.

Lemma sorted_reverse_ext (k1 k2 : loc → Z) (l : list loc) :
  (∀ y, y ∈ l → k1 y = k2 y) → sorted_reverse k1 l = sorted_reverse k2 l.
Proof.
  induction l as [|x l IH]; intros Hl; cbn; [done|].
  fold (sorted_reverse k1 l) (sorted_reverse k2 l).
  rewrite <- IH by (intros y Hy; by apply Hl, list_elem_of_further).
  apply sort_insert_ext; [apply Hl, list_elem_of_here|].
  intros y Hy. rewrite sorted_reverse_perm in Hy.
  by apply Hl, list_elem_of_further.
Qed.

Lemma obs_eq_search (e1 e2 : SearchEngine) (q : list N) :
  obs_eq e1 e2 → search e1 q = search e2 q ∧ search_ids e1 q = search_ids e2 q.
Proof.
  intros (Hsubs & Hkw & Hdom & Hheap).
  assert (∀ a, a ∈ search e1 q → heap e1 !!! a = heap e2 !!! a) as Hres.
  { intros a Ha. rewrite !lookup_total_alt. f_equal. apply Hheap.
    destruct (present_tokens e1 q) as [|w0 ws] eqn:Ews.
    - rewrite (search_none_present e1 q Ews) in Ha. by apply elem_of_nil in Ha.
    - right. exists w0. apply (search_some_present e1 q a); [by rewrite Ews|done|].
      rewrite Ews. apply list_elem_of_here. }
  assert (search e1 q = search e2 q) as Heq.
  { revert Hres. unfold search.
    replace (foldl (search_step e2)) with (foldl (search_step e1))
      by (unfold search_step; by rewrite Hkw).
    destruct (foldl (search_step e1) (∅, true) (split (clean_text q))) as [R f].
    intros Hres. apply sorted_reverse_ext. intros a Ha. f_equal. apply Hres.
    by rewrite sorted_reverse_perm. }
  split; [done|]. unfold search_ids. rewrite <- Heq.
  apply list_fmap_ext. intros _ a Ha%list_elem_of_lookup_2. f_equal. by apply Hres.
Qed.

(** What [remove_record] does when the tokens of the record are pairwise
    distinct: it returns the record, drops its entry of [subs], takes it out
    of every set, touches no other member, and drops the keys that listed
    it alone. *)
Lemma remove_record_returns (e : SearchEngine) (id : Z) (a : loc) :
  wf e → subs e !! id = Some a → NoDup (tokens_of e a) →
  result (remove_record id) e = Ok a ∧
  heap (exec (remove_record id) e) = heap e ∧
  subs (exec (remove_record id) e) = delete id (subs e) ∧
  (∀ w, a ∉ posting (exec (remove_record id) e) w) ∧
  (∀ w b, b ≠ a →
          b ∈ posting (exec (remove_record id) e) w ↔ b ∈ posting e w) ∧
  (∀ w, posting e w ⊆ {[a]} → keywords (exec (remove_record id) e) !! w = None).
Proof.
  intros Hwf Ea Hnd.
  pose proof (wf_nonempty _ (wf_remove_record id e Hwf)) as Hne.
  revert Hne. unfold result, exec. rewrite remove_record_run, Ea. cbn zeta.
  fold (tokens_of e a).
  assert ((retract_words a (keywords e) (tokens_of e a)).1 = Ok tt) as Hok.
  { apply retract_words_ok; [done|].
    intros w Hw _. by apply (wf_live e Hwf id). }
  destruct (retract_words_posting a (tokens_of e a) (keywords e))
    as (seen & _ & Hpost & Hend).
  rewrite Hok in *.
  destruct Hend as [[_ ->]|[? _]]; [|done].
  cbn [fst snd heap subs keywords]. intros Hne.
  split; [done|]. split; [done|]. split; [done|]. split; [|split].
  - intros w Hw. unfold posting in Hw. cbn [keywords] in Hw.
    apply Hpost in Hw as [Hw Hnot]. apply Hnot. split; [done|].
    by apply (wf_keywords e Hwf).
  - intros w b Hb. unfold posting. cbn [keywords].
    fold (posting_of (retract_words a (keywords e) (tokens_of e a)).2 w).
    rewrite Hpost. unfold posting_of. tauto.
  - intros w Hw.
    destruct ((retract_words a (keywords e) (tokens_of e a)).2 !! w) as [s|] eqn:Es;
      [|done].
    exfalso. apply (Hne w s Es). apply set_eq. intros b. split; [|set_solver].
    intros Hb. exfalso.
    assert (b ∈ posting_of (retract_words a (keywords e) (tokens_of e a)).2 w)
      as Hb' by (unfold posting_of; by rewrite Es).
    apply Hpost in Hb' as [Hb1 Hb2]. apply Hb2.
    pose proof (Hw _ Hb1) as ->%elem_of_singleton.
    split; [done|]. by apply (wf_keywords e Hwf w a).
Qed.


(** *** The engines of the examples *)

Lemma engine_one_wf : wf engine_one.
Proof. apply wf_index_record, wf_init. Qed.

Lemma engine_one_in_sync : in_sync engine_one.
Proof.
  apply in_sync_index_record; [apply wf_init|apply in_sync_init|done].
Qed.

Lemma engine_two_wf : wf engine_two.
Proof. apply wf_index_record, wf_index_record, wf_init. Qed.

Lemma engine_two_in_sync : in_sync engine_two.
Proof.
  apply in_sync_index_record.
  - apply wf_index_record, wf_init.
  - apply in_sync_index_record; [apply wf_init|apply in_sync_init|done].
  - by vm_compute.
Qed.

(** The scenarios of the specification. *)
Example scenario_search_ahmadi : search_ids engine_scenario ahmadi = [2; 1].
Proof. by vm_compute. Qed.

Example scenario_search_riazi_fizik :
  search_ids engine_scenario (sentence [riazi; fizik]) = [].
Proof. by vm_compute. Qed.

Example scenario_three_likes :
  let e := exec (increase_likes 1)
             (exec (increase_likes 1) (exec (increase_likes 1) engine_scenario)) in
  search_ids e riazi = [1] ∧
  (λ a, likes (heap e !!! a)) <$> search e riazi = [3].
Proof. by vm_compute. Qed.

(** C1, counterexample. The engine holds one record, with text [a]; the
    query [a zz] has the token [zz], which is not a key of the index, and
    the result is not empty. *)
Lemma search_skips_absent_token :
  ¬ (∀ (e : SearchEngine) (q w : list N),
       w ∈ split (clean_text q) → keywords e !! w = None → search e q = []).
Proof.
  intros H.
  specialize (H engine_one (of_string "a zz") (of_string "zz")).
  assert (search engine_one (of_string "a zz") = []) as Hempty.
  { apply H; [|by vm_compute].
    replace (split _) with [of_string "a"; of_string "zz"] by by vm_compute.
    set_solver. }
  vm_compute in Hempty. discriminate.
Qed.

Lemma search_matches_present_tokens_witness :
  wf engine_two ∧ in_sync engine_two ∧
  NoDup (search_ids engine_two (of_string "a zz")) ∧
  (2 ∈ search_ids engine_two (of_string "a zz")
   ↔ ∃ a, subs engine_two !! 2 = Some a ∧
          ∀ w, w ∈ present_tokens engine_two (of_string "a zz") →
               w ∈ tokens_of engine_two a).
Proof.
  split; [apply engine_two_wf|]. split; [apply engine_two_in_sync|].
  destruct (search_matches_present_tokens engine_two (of_string "a zz")
              engine_two_wf engine_two_in_sync) as [_ H].
  destruct H as [Hnd Hiff]; [by vm_compute|].
  split; [exact Hnd|exact (Hiff 2)].
Defined.

(** C2, on the code. [index_record] is called twice with id 1, first with
    text [a], then with text [b]; it does not take the first record out of
    the set of [a]. Identity 1 is then reachable under [a], which is not a
    token of the record that [subs] holds for 1. *)
Theorem index_record_reused_id_desync :
  reachable engine_reused ∧
  id_under engine_reused (of_string "a") 1 ∧
  ¬ token_of_id engine_reused (of_string "a") 1.
Proof.
  split; [|split].
  - apply (reachable_call _ (IndexRecord 1 (of_string "b") (of_string "t") 0)).
    apply (reachable_call _ (IndexRecord 1 (of_string "a") (of_string "t") 0)).
    apply reachable_init.
  - exists 1%positive. split; [|by vm_compute].
    apply (bool_decide_unpack _). by vm_compute.
  - intros (a & Ha & Ht). vm_compute in Ha. injection Ha as <-.
    unfold tokens_of in Ht.
    replace (split _) with [of_string "b"] in Ht by by vm_compute.
    apply list_elem_of_singleton in Ht. vm_compute in Ht. discriminate.
Qed.

(** C3, counterexample. The record has 3 likes and the score provided is
    [-1]: [update_record] keeps the 3 likes, remove-then-index with every
    provided field merged gives [-1]. *)
Lemma update_record_minus_one_not_merged :
  ¬ (∀ (e : SearchEngine) (id : Z) (st ty : option (list N)) (score : option Z),
       wf e →
       run_eq (update_record id st ty (default (-1) score) e)
              (update_specified id st ty score e)).
Proof.
  intros H.
  destruct (H engine_one 1 None None (Some (-1)) engine_one_wf)
    as (_ & _ & _ & _ & Hheap).
  specialize (Hheap 2%positive).
  assert (heap (update_record 1 None None (default (-1) (Some (-1))) engine_one).2
            !! 2%positive
          = heap (update_specified 1 None None (Some (-1)) engine_one).2
              !! 2%positive) as Heq.
  { apply Hheap. left. exists 1. by vm_compute. }
  vm_compute in Heq. discriminate.
Qed.

Lemma update_record_is_remove_then_index_witness :
  wf engine_two ∧
  run_eq (update_record 1 (Some (of_string "c d")) None (-1) engine_two)
         (update_merged 1 (Some (of_string "c d")) None (-1) engine_two).
Proof.
  split; [apply engine_two_wf|].
  apply (update_record_is_remove_then_index engine_two 1
           (Some (of_string "c d")) None (-1) engine_two_wf).
Defined.

(** C4, on the code. Record 1 has the token [a] twice and record 2 has it
    once. [remove_record(1)] takes record 1 out of the set of [a] at the
    first [a]; the set still holds record 2, so the key stays, and at the
    second [a] the [remove] on the set raises [KeyError]. The method does
    not return the record, and the entry of [subs] is gone. *)
Theorem remove_record_repeated_token_raises :
  reachable engine_repeated ∧
  subs engine_repeated !! 1 = Some 1%positive ∧
  result (remove_record 1) engine_repeated = Raise (KeyError (KObj 1%positive)) ∧
  subs (exec (remove_record 1) engine_repeated) !! 1 = None.
Proof.
  split; [|by vm_compute].
  apply (reachable_call _ (IndexRecord 2 (of_string "a") (of_string "t") 0)).
  apply (reachable_call _ (IndexRecord 1 (of_string "a a") (of_string "t") 0)).
  apply reachable_init.
Qed.

Lemma absent_id_raises_witness :
  subs engine_two !! 7 = None ∧
  remove_record 7 engine_two = (Raise (KeyError (KInt 7)), engine_two) ∧
  increase_likes 7 engine_two = (Raise (KeyError (KInt 7)), engine_two).
Proof.
  split; [by vm_compute|].
  destruct (absent_id_raises engine_two 7 None None (-1)) as (_ & H1 & H2 & _);
    [by vm_compute|].
  split; [exact H1|exact H2].
Defined.

Lemma search_zero_tokens_witness :
  split (clean_text (of_string "   ")) = [] ∧
  search engine_two (of_string "   ") = [].
Proof.
  split; [by vm_compute|].
  apply (search_zero_tokens engine_two (of_string "   ")). by vm_compute.
Defined.

(** A score of 0 goes to [-1]. *)
Lemma likes_adjust_frame_witness :
  subs engine_two !! 1 = Some 1%positive ∧
  heap engine_two !! 1%positive
  = Some (mkRecord 1 (of_string "a b") (of_string "t") 0) ∧
  heap (exec (decrease_likes 1) engine_two) !! 1%positive
  = Some (mkRecord 1 (of_string "a b") (of_string "t") (0 - 1)).
Proof.
  split; [by vm_compute|]. split; [by vm_compute|].
  destruct (likes_adjust_frame engine_two 1 1%positive
              (mkRecord 1 (of_string "a b") (of_string "t") 0))
    as [_ (_ & H & _)]; [by vm_compute|by vm_compute|].
  exact H.
Defined.


End SearchFacts.

(** ** The user cache *)

Module CacheFacts.
Import PyStr Cache.

(** The three names are stored as the ordinals 1 to 3. *)
Lemma permission_values_range (name : list N) (v : Z) :
  dict_get permission_values name = Some v → 1 ≤ v ≤ 3.
Proof.
  unfold permission_values. cbn [dict_get].
  repeat (destruct (bool_decide _); [intros [= <-]; lia|]). done.
Qed.

Lemma add_user_named (lower : list N → list N) (c : UserCache) (id : Z)
    (name step : list N) (v : Z) :
  dict_get permission_values name = Some v →
  permission <$> users (exec (add_user lower id (PStr name) step) c) !! id
  = Some (PInt v).
Proof.
  intros Hv. unfold exec, add_user. cbn [snd users].
  rewrite lookup_insert_eq. unfold new_UserRecord, update_permission.
  by rewrite Hv.
Qed.

(** A number outside 1 to 3 is stored as it is: a user added with the
    number 0 as permission is registered, and the default bounds do not
    admit it. *)
Lemma default_bounds_reject_registered_user :
  ¬ (∀ (c : UserCache) (id : Z),
       is_Some (users c !! id) → result (has_permission id 1 3) c = Ok true).
Proof.
  intros H.
  specialize (H (exec (add_user (λ s, s) 10 (PInt 0) []) init) 10).
  assert (is_Some (users (exec (add_user (λ s, s) 10 (PInt 0) []) init) !! 10))
    as Hreg by (eexists; by vm_compute).
  specialize (H Hreg). vm_compute in H. discriminate.
Qed.

(** On any cache, [has_permission] returns [False] on an unknown id,
    whatever the bounds, and changes nothing; on a registered id whose
    permission is a number it returns whether [min <= permission <= max],
    both bounds included. *)
Theorem has_permission_inclusive (c : UserCache) (id min max : Z) :
  (users c !! id = None → has_permission id min max c = (Ok false, c)) ∧
  (∀ u p, users c !! id = Some u → permission u = PInt p →
          has_permission id min max c = (Ok (bool_decide (min ≤ p ≤ max)), c) ∧
          (1 ≤ p ≤ 3 → has_permission id 1 3 c = (Ok true, c))).
Proof.
  unfold has_permission, record_has_permission. split.
  - by intros ->.
  - intros u p -> ->. split.
    + do 2 f_equal. rewrite Z.geb_leb.
      destruct (Z.leb_spec min p), (Z.leb_spec p max); cbn;
        symmetry; first [by apply bool_decide_eq_true; lia
                        |by apply bool_decide_eq_false; lia].
    + intros Hp. do 2 f_equal. rewrite Z.geb_leb.
      apply andb_true_intro. split; apply Z.leb_le; lia.
Qed.

(** The scenario of the specification: an [Editor] passes the bounds 2 and
    3 and fails the bounds 3 and 3. *)
Lemma has_permission_inclusive_witness :
  let c := exec (add_user (λ s, s) 10 (PStr (of_string "Editor"))
                   (of_string "await_title")) init in
  users c !! 10
  = Some (mkUser 10 (PInt 2) (of_string "await_title")) ∧
  has_permission 10 2 3 c = (Ok true, c) ∧
  has_permission 10 3 3 c = (Ok false, c) ∧
  has_permission 10 1 3 c = (Ok true, c).
Proof.
  intros c.
  assert (users c !! 10 = Some (mkUser 10 (PInt 2) (of_string "await_title")))
    as Hu by by vm_compute.
  split; [exact Hu|].
  split; [|split].
  - exact (proj1 (proj2 (has_permission_inclusive c 10 2 3) _ 2 Hu eq_refl)).
  - exact (proj1 (proj2 (has_permission_inclusive c 10 3 3) _ 2 Hu eq_refl)).
  - apply (proj2 (proj2 (has_permission_inclusive c 10 1 3) _ 2 Hu eq_refl)).
    lia.
Defined.

(** C10. On an id that the cache does not hold, [update_user_permission]
    and [update_user_step] return without raising and leave the cache as it
    was. *)
Theorem update_unknown_user_noop (lower : list N → list N) (c : UserCache)
    (id : Z) (permission : pyval) (last_step : list N) :
  users c !! id = None →
  update_user_permission id permission c = (Ok tt, c) ∧
  update_user_step lower id last_step c = (Ok tt, c).
Proof.
  intros Hid. unfold update_user_permission, update_user_step.
  by rewrite Hid.
Qed.

Lemma update_unknown_user_noop_witness :
  let c := exec (add_user (λ s, s) 10 (PStr (of_string "Editor"))
                   (of_string "await_title")) init in
  users c !! 11 = None ∧
  update_user_permission 11 (PStr (of_string "Admin")) c = (Ok tt, c) ∧
  update_user_step (λ s, s) 11 (of_string "done") c = (Ok tt, c).
Proof.
  intros c.
  assert (users c !! 11 = None) as Hu by by vm_compute.
  split; [exact Hu|].
  exact (update_unknown_user_noop (λ s, s) c 11 (PStr (of_string "Admin"))
           (of_string "done") Hu).
Defined.

Lemma stored_permission_in_range (p : pyval) (u : UserRecord) :
  CacheMore.valid_permission p →
  ∃ v, permission (update_permission p u) = PInt v ∧ 1 ≤ v ≤ 3.
Proof.
  intros (v & Hv & Hr). exists v. split; [|done].
  unfold update_permission. unfold CacheMore.ordinal_of in Hv.
  destruct p as [name|n].
  - by rewrite Hv.
  - by injection Hv as ->.
Qed.

(** A cache that starts empty and is given permissions of the domain
    stores the numbers 1, 2, 3 only. *)
Lemma built_permissions_in_range (lower : list N → list N) (c : UserCache) :
  CacheMore.built lower c → CacheMore.permissions_in_range c.
Proof.
  induction 1 as [|c id p step _ IH Hp|c id p _ IH Hp|c id step _ IH|c id _ IH];
    intros j u.
  - cbn. by rewrite lookup_empty.
  - unfold exec, add_user. cbn [snd users]. rewrite lookup_insert.
    destruct (decide (id = j)) as [->|]; [|apply IH].
    intros [= <-]. by apply stored_permission_in_range.
  - unfold exec, update_user_permission.
    destruct (users c !! id) as [u0|] eqn:E; [|apply IH].
    cbn [snd users]. rewrite lookup_insert.
    destruct (decide (id = j)) as [->|]; [|apply IH].
    intros [= <-]. by apply stored_permission_in_range.
  - unfold exec, update_user_step.
    destruct (users c !! id) as [u0|] eqn:E; [|apply IH].
    cbn [snd users]. rewrite lookup_insert.
    destruct (decide (id = j)) as [->|]; [|apply IH].
    intros [= <-]. cbn. by apply (IH j u0).
  - unfold exec, remove_user.
    destruct (users c !! id) as [u0|] eqn:E; [|apply IH].
    cbn [snd users]. rewrite lookup_delete.
    destruct (decide (id = j)); [done|apply IH].
Qed.

(** C9. On every cache that starts empty and is given permissions of the
    domain (a name among [Ordinary], [Editor], [Admin], or a number from 1
    to 3), [has_permission(id, min, max)] returns [False] when [id] is
    unknown, whatever the bounds; when [id] is registered the permission is
    a number and it returns [True] if and only if
    [min <= permission <= max], both bounds included, so the default
    bounds 1 and 3 admit every registered user. The cache is unchanged in
    every case. *)
Theorem has_permission_of_registered_users (lower : list N → list N)
    (c : UserCache) (id min max : Z) :
  CacheMore.built lower c →
  (users c !! id = None → has_permission id min max c = (Ok false, c)) ∧
  (∀ u, users c !! id = Some u →
        ∃ v, permission u = PInt v ∧
             has_permission id min max c = (Ok (bool_decide (min ≤ v ≤ max)), c) ∧
             (has_permission id min max c = (Ok true, c) ↔ min ≤ v ≤ max)) ∧
  (is_Some (users c !! id) → has_permission id 1 3 c = (Ok true, c)).
Proof.
  intros Hrange%built_permissions_in_range.
  assert (∀ u lo hi, users c !! id = Some u →
            ∃ v, permission u = PInt v ∧ 1 ≤ v ≤ 3 ∧
                 has_permission id lo hi c = (Ok (bool_decide (lo ≤ v ≤ hi)), c))
    as Hreg.
  { intros u lo hi Hu. destruct (Hrange id u Hu) as (v & Hv & Hr).
    exists v. split; [done|]. split; [done|].
    unfold has_permission, record_has_permission. rewrite Hu, Hv.
    do 2 f_equal. rewrite Z.geb_leb.
    destruct (Z.leb_spec lo v), (Z.leb_spec v hi); cbn; symmetry;
      first [by apply bool_decide_eq_true; lia
            |by apply bool_decide_eq_false; lia]. }
  split; [|split].
  - intros Hu. unfold has_permission. by rewrite Hu.
  - intros u Hu. destruct (Hreg u min max Hu) as (v & Hv & _ & Hres).
    exists v. split; [done|]. split; [done|]. rewrite Hres. split.
    + intros [= Hb]. by apply bool_decide_eq_true in Hb.
    + intros Hb. by rewrite bool_decide_eq_true_2.
  - intros [u Hu]. destruct (Hreg u 1 3 Hu) as (v & _ & Hr & ->).
    by rewrite bool_decide_eq_true_2.
Qed.

(** The scenario of the specification: an [Editor] passes the bounds 2 and
    3, fails the bounds 3 and 3, and passes the default bounds. *)
Lemma has_permission_of_registered_users_witness :
  let c := exec (add_user (λ s, s) 10 (PStr (of_string "Editor"))
                   (of_string "await_title")) init in
  CacheMore.built (λ s, s) c ∧
  has_permission 10 2 3 c = (Ok true, c) ∧
  has_permission 10 3 3 c = (Ok false, c) ∧
  has_permission 10 1 3 c = (Ok true, c) ∧
  has_permission 11 1 3 c = (Ok false, c).
Proof.
  intros c.
  assert (CacheMore.built (λ s, s) c) as Hb.
  { apply CacheMore.built_add_user; [apply CacheMore.built_init|].
    exists 2. split; [reflexivity|lia]. }
  assert (users c !! 10 = Some (mkUser 10 (PInt 2) (of_string "await_title")))
    as Hu by by vm_compute.
  split; [exact Hb|].
  destruct (proj1 (proj2 (has_permission_of_registered_users (λ s, s) c 10 2 3 Hb))
              _ Hu) as (v2 & Hv2 & H23 & _).
  destruct (proj1 (proj2 (has_permission_of_registered_users (λ s, s) c 10 3 3 Hb))
              _ Hu) as (v3 & Hv3 & H33 & _).
  cbn in Hv2, Hv3. injection Hv2 as <-. injection Hv3 as <-.
  split; [exact H23|]. split; [exact H33|]. split.
  - apply (proj2 (proj2 (has_permission_of_registered_users (λ s, s) c 10 1 3 Hb))).
    by eexists.
  - apply (proj1 (has_permission_of_registered_users (λ s, s) c 11 1 3 Hb)).
    by vm_compute.
Defined.


End CacheFacts.

(** ** More on the search engine *)

Module EngineFacts.
Import PyStr PyStrFacts Search SearchFacts SearchMore.

(** The tokens of a normalized text are the folded tokens of the text. *)
Lemma split_clean_text (text : list N) :
  split (clean_text text) = List.map (List.map fold_char) (split text).
Proof.
  rewrite clean_text_normalize. unfold normalize.
  by rewrite split_strip, (split_map fold_char fold_char_space).
Qed.

Lemma clean_text_fold (text : list N) :
  clean_text (List.map fold_char text) = clean_text text.
Proof.
  rewrite !clean_text_normalize. unfold normalize.
  rewrite List.map_map. f_equal. apply List.map_ext, fold_char_idemp.
Qed.

(** Two keyword dictionaries without empty sets that list the same objects
    under every word are equal. *)
Lemma keywords_ext (kw1 kw2 : gmap (list N) (gset loc)) :
  (∀ w s, kw1 !! w = Some s → s ≠ ∅) →
  (∀ w s, kw2 !! w = Some s → s ≠ ∅) →
  (∀ w, posting_of kw1 w = posting_of kw2 w) →
  kw1 = kw2.
Proof.
  intros H1 H2 Hp. apply map_eq. intros w. specialize (Hp w).
  unfold posting_of in Hp.
  destruct (kw1 !! w) as [s1|] eqn:E1, (kw2 !! w) as [s2|] eqn:E2;
    cbn in Hp; [by subst| | |done].
  - by destruct (H1 w s1 E1).
  - by destruct (H2 w s2 E2).
Qed.

Lemma found_after_index (e : SearchEngine) (id : Z) (text ty : list N) (lk : Z)
    (q : list N) :
  split (clean_text q) ≠ [] →
  (∀ w, w ∈ split (clean_text q) → w ∈ split (clean_text text)) →
  id ∈ search_ids (exec (index_record id text ty lk) e) q.
Proof.
  intros Hq Hsub. unfold exec. rewrite index_record_run. cbn [snd].
  set (a := fresh (dom (heap e))).
  set (e' := mkEngine _ _ _).
  assert (∀ w, w ∈ split (clean_text text) → a ∈ posting e' w) as Hlisted.
  { intros w Hw. unfold posting, e'. cbn [keywords].
    fold (posting_of (foldl (index_word a) (keywords e) (split (clean_text text))) w).
    apply posting_index_words. by right. }
  assert (∀ w, w ∈ split (clean_text q) → w ∈ present_tokens e' q) as Hpresent.
  { intros w Hw. apply elem_of_present_tokens. split; [|done].
    specialize (Hlisted w (Hsub w Hw)). unfold posting in Hlisted.
    destruct (keywords e' !! w); [done|]. cbn in Hlisted. set_solver. }
  unfold search_ids. apply list_elem_of_fmap. exists a. split.
  - unfold e'. cbn [heap]. by rewrite lookup_total_insert_eq.
  - apply search_some_present.
    + destruct (split (clean_text q)) as [|w0 ws] eqn:E; [done|].
      intros Hnil. specialize (Hpresent w0 (list_elem_of_here _ _)).
      rewrite Hnil in Hpresent. by apply elem_of_nil in Hpresent.
    + intros w [_ Hw]%elem_of_present_tokens. by apply Hlisted, Hsub.
Qed.

(** X1. After [index_record(id, text, ...)], on any engine, a query that has
    a token and whose tokens are all tokens of the text finds [id]; the
    text itself is such a query when it has a token. *)
Theorem indexed_record_is_found (e : SearchEngine) (id : Z) (text ty : list N)
    (lk : Z) (q : list N) :
  split (clean_text q) ≠ [] →
  (∀ w, w ∈ split (clean_text q) → w ∈ split (clean_text text)) →
  id ∈ search_ids (exec (index_record id text ty lk) e) q.
Proof. apply found_after_index. Qed.

Lemma indexed_record_is_found_witness :
  split (clean_text (of_string "c")) ≠ [] ∧
  3 ∈ search_ids
        (exec (index_record 3 (of_string " b  c ") (of_string "t") 0) engine_two)
        (of_string "c").
Proof.
  split; [by vm_compute|].
  apply (indexed_record_is_found engine_two 3 (of_string " b  c ") (of_string "t")
           0 (of_string "c")); [by vm_compute|].
  intros w Hw.
  replace (split (clean_text (of_string "c"))) with [of_string "c"] in Hw
    by by vm_compute.
  replace (split (clean_text (of_string " b  c ")))
    with [of_string "b"; of_string "c"] by by vm_compute.
  apply list_elem_of_singleton in Hw as ->. set_solver.
Defined.

(** X2. When [remove_record(id)] returns on an engine whose index is in
    step with [subs], no query finds [id] any more. *)
Theorem removed_record_is_not_found (e : SearchEngine) (id : Z) (a : loc)
    (q : list N) :
  wf e → in_sync e → result (remove_record id) e = Ok a →
  id ∉ search_ids (exec (remove_record id) e) q.
Proof.
  intros Hwf Hsync Hok Hin.
  pose proof (in_sync_remove_record id e a Hwf Hsync Hok) as Hsync'.
  assert (subs (exec (remove_record id) e) !! id = None) as Hgone.
  { revert Hok. unfold result, exec. rewrite remove_record_run.
    destruct (subs e !! id); [|done]. intros _. apply lookup_delete_eq. }
  unfold search_ids in Hin. apply list_elem_of_fmap in Hin as (b & Hid & Hb).
  destruct (present_tokens (exec (remove_record id) e) q) as [|w0 ws] eqn:Ews.
  - rewrite (search_none_present _ q Ews) in Hb. by apply elem_of_nil in Hb.
  - assert (b ∈ posting (exec (remove_record id) e) w0) as Hw0.
    { apply (search_some_present _ q b); [by rewrite Ews|done|].
      rewrite Ews. apply list_elem_of_here. }
    specialize (Hsync' w0 b Hw0). rewrite <- Hid in Hsync'. congruence.
Qed.

Lemma removed_record_is_not_found_witness :
  wf engine_two ∧ in_sync engine_two ∧
  result (remove_record 1) engine_two = Ok 1%positive ∧
  1 ∉ search_ids (exec (remove_record 1) engine_two) (of_string "a").
Proof.
  split; [apply engine_two_wf|]. split; [apply engine_two_in_sync|].
  split; [by vm_compute|].
  apply (removed_record_is_not_found engine_two 1 1%positive (of_string "a")
           engine_two_wf engine_two_in_sync).
  by vm_compute.
Defined.

(** X3. [index_record] on a new id with a text whose tokens are pairwise
    distinct, then [remove_record] on that id: the second call returns the
    record the first created, and [subs] and [keywords] are what they were
    before the two calls. *)
Theorem index_then_remove_restores (e : SearchEngine) (id : Z)
    (text ty : list N) (lk : Z) :
  wf e → subs e !! id = None → NoDup (split (clean_text text)) →
  result (remove_record id) (exec (index_record id text ty lk) e)
  = Ok (fresh (dom (heap e))) ∧
  subs (exec (remove_record id) (exec (index_record id text ty lk) e)) = subs e ∧
  keywords (exec (remove_record id) (exec (index_record id text ty lk) e))
  = keywords e.
Proof.
  intros Hwf Hnew Hnd.
  pose proof (wf_index_record id text ty lk e Hwf) as Hwf1.
  pose proof (is_fresh (dom (heap e))) as Ha.
  assert (exec (index_record id text ty lk) e
          = mkEngine
              (<[fresh (dom (heap e)) :=
                   mkRecord id (clean_text text) (strip ty) lk]> (heap e))
              (<[id := fresh (dom (heap e))]> (subs e))
              (foldl (index_word (fresh (dom (heap e)))) (keywords e)
                 (split (clean_text text)))) as Hexec.
  { unfold exec. by rewrite index_record_run. }
  set (a := fresh (dom (heap e))) in *.
  rewrite Hexec in *. clear Hexec.
  set (e1 := mkEngine _ _ _) in *.
  pose proof (wf_remove_record id _ Hwf1) as Hwf2.
  assert (subs e1 !! id = Some a) as Ea by apply lookup_insert_eq.
  assert (tokens_of e1 a = split (clean_text text)) as Htok.
  { unfold tokens_of, e1. cbn [heap]. by rewrite lookup_total_insert_eq. }
  destruct (remove_record_returns e1 id a Hwf1 Ea)
    as (Hres & _ & Hsubs & Hout & Hrest & _).
  { by rewrite Htok. }
  split; [done|]. split.
  { rewrite Hsubs. unfold e1. cbn [subs].
    by rewrite delete_insert_eq, delete_id. }
  apply keywords_ext; [apply (wf_nonempty _ Hwf2)|apply (wf_nonempty _ Hwf)|].
  intros w. apply set_eq. intros b.
  change (b ∈ posting (exec (remove_record id) e1) w ↔ b ∈ posting e w).
  destruct (decide (b = a)) as [->|Hne].
  - split; [by intros ?%Hout|].
    intros Hb. destruct (wf_keywords e Hwf w a Hb) as [Hd _]. done.
  - rewrite (Hrest w b Hne). unfold posting, e1. cbn [keywords].
    fold (posting_of (foldl (index_word a) (keywords e) (split (clean_text text))) w).
    rewrite posting_index_words. unfold posting_of. tauto.
Qed.

Lemma index_then_remove_restores_witness :
  wf engine_two ∧ subs engine_two !! 3 = None ∧
  NoDup (split (clean_text (of_string "x y"))) ∧
  keywords (exec (remove_record 3)
              (exec (index_record 3 (of_string "x y") (of_string "t") 0) engine_two))
  = keywords engine_two.
Proof.
  split; [apply engine_two_wf|]. split; [by vm_compute|].
  assert (NoDup (split (clean_text (of_string "x y")))) as Hnd.
  { replace (split _) with [of_string "x"; of_string "y"] by by vm_compute.
    apply NoDup_cons. split; [|apply NoDup_singleton].
    intros Hx%list_elem_of_singleton. by vm_compute in Hx. }
  split; [exact Hnd|].
  apply (index_then_remove_restores engine_two 3 (of_string "x y") (of_string "t") 0
           engine_two_wf); [by vm_compute|exact Hnd].
Defined.

(** X4. On an id that [subs] holds, [decrease_likes] after [increase_likes]
    returns and gives back the engine as it was, and so does
    [increase_likes] after [decrease_likes]. *)
Theorem likes_round_trip (e : SearchEngine) (id : Z) (a : loc) (r : Rec) :
  subs e !! id = Some a → heap e !! a = Some r →
  decrease_likes id (exec (increase_likes id) e) = (Ok tt, e) ∧
  increase_likes id (exec (decrease_likes id) e) = (Ok tt, e).
Proof.
  intros Ea Er.
  assert (∀ n r', set_heap (<[a := with_likes n r']> (heap e)) e
                  = mkEngine (<[a := with_likes n r']> (heap e)) (subs e) (keywords e))
    as Hset by done.
  split; unfold exec.
  - rewrite (increase_likes_run id e a r Ea Er). cbn [snd].
    erewrite decrease_likes_run; [|exact Ea|apply lookup_insert_eq].
    f_equal. unfold set_heap. cbn [heap subs keywords].
    rewrite insert_insert_eq. destruct e as [h s k], r as [i t ty l].
    cbn in *. f_equal. unfold with_likes. cbn.
    replace (l + 1 - 1) with l by lia. by apply insert_id.
  - rewrite (decrease_likes_run id e a r Ea Er). cbn [snd].
    erewrite increase_likes_run; [|exact Ea|apply lookup_insert_eq].
    f_equal. unfold set_heap. cbn [heap subs keywords].
    rewrite insert_insert_eq. destruct e as [h s k], r as [i t ty l].
    cbn in *. f_equal. unfold with_likes. cbn.
    replace (l - 1 + 1) with l by lia. by apply insert_id.
Qed.

Lemma likes_round_trip_witness :
  subs engine_two !! 2 = Some 2%positive ∧
  heap engine_two !! 2%positive
  = Some (mkRecord 2 (of_string "a c") (of_string "t") 5) ∧
  decrease_likes 2 (exec (increase_likes 2) engine_two) = (Ok tt, engine_two).
Proof.
  assert (subs engine_two !! 2 = Some 2%positive) as H1 by by vm_compute.
  assert (heap engine_two !! 2%positive
          = Some (mkRecord 2 (of_string "a c") (of_string "t") 5)) as H2
    by by vm_compute.
  split; [exact H1|]. split; [exact H2|].
  exact (proj1 (likes_round_trip engine_two 2 2%positive _ H1 H2)).
Defined.

Lemma keywords_increase_likes (id : Z) (e : SearchEngine) :
  keywords (exec (increase_likes id) e) = keywords e.
Proof.
  unfold exec, increase_likes, mbind, M_bind, bind, subs_get, deref, assign.
  by destruct (subs e !! id).
Qed.

Lemma keywords_decrease_likes (id : Z) (e : SearchEngine) :
  keywords (exec (decrease_likes id) e) = keywords e.
Proof.
  unfold exec, decrease_likes, mbind, M_bind, bind, subs_get, deref, assign.
  by destruct (subs e !! id).
Qed.

Lemma rec_id_alter_likes (n : Z) (a b : loc) (h : gmap loc Rec) :
  rec_id (alter (with_likes n) a h !!! b) = rec_id (h !!! b).
Proof.
  rewrite lookup_total_alter. destruct (decide (a = b)) as [<-|]; [|done].
  rewrite lookup_total_alt. by destruct (h !! a).
Qed.

Lemma rec_id_increase_likes (id : Z) (e : SearchEngine) (b : loc) :
  rec_id (heap (exec (increase_likes id) e) !!! b) = rec_id (heap e !!! b).
Proof.
  unfold exec, increase_likes, mbind, M_bind, bind, subs_get, deref, assign.
  destruct (subs e !! id); [|done]. cbn. apply rec_id_alter_likes.
Qed.

Lemma rec_id_decrease_likes (id : Z) (e : SearchEngine) (b : loc) :
  rec_id (heap (exec (decrease_likes id) e) !!! b) = rec_id (heap e !!! b).
Proof.
  unfold exec, decrease_likes, mbind, M_bind, bind, subs_get, deref, assign.
  destruct (subs e !! id); [|done]. cbn. apply rec_id_alter_likes.
Qed.

(** Engines with the same [keywords] answer a query with the same objects. *)
Lemma search_perm_keywords (e1 e2 : SearchEngine) (q : list N) :
  keywords e1 = keywords e2 → search e1 q ≡ₚ search e2 q.
Proof.
  intros Hkw. unfold search.
  replace (foldl (search_step e2)) with (foldl (search_step e1))
    by (unfold search_step; by rewrite Hkw).
  destruct (foldl (search_step e1) (∅, true) (split (clean_text q))) as [R f].
  by rewrite !sorted_reverse_perm.
Qed.

Lemma search_ids_perm (e1 e2 : SearchEngine) (q : list N) :
  keywords e1 = keywords e2 →
  (∀ b, rec_id (heap e1 !!! b) = rec_id (heap e2 !!! b)) →
  search_ids e1 q ≡ₚ search_ids e2 q.
Proof.
  intros Hkw Hid. unfold search_ids.
  rewrite (search_perm_keywords e1 e2 q Hkw).
  erewrite list_fmap_ext; [done|]. intros _ b _. apply Hid.
Qed.

(** X5. [increase_likes] and [decrease_likes], on any id and any engine,
    change no answer of [search] but for the order: the records and the
    identities a query returns are the same before and after. *)
Theorem likes_keep_matches (e : SearchEngine) (id : Z) (q : list N) :
  search (exec (increase_likes id) e) q ≡ₚ search e q ∧
  search_ids (exec (increase_likes id) e) q ≡ₚ search_ids e q ∧
  search (exec (decrease_likes id) e) q ≡ₚ search e q ∧
  search_ids (exec (decrease_likes id) e) q ≡ₚ search_ids e q.
Proof.
  split; [apply search_perm_keywords, keywords_increase_likes|].
  split; [apply search_ids_perm;
          [apply keywords_increase_likes|apply rec_id_increase_likes]|].
  split; [apply search_perm_keywords, keywords_decrease_likes|].
  apply search_ids_perm; [apply keywords_decrease_likes|apply rec_id_decrease_likes].
Qed.

(** X6. [search] returns, each once and in the order of [likes], larger
    first, exactly the records listed under every token of the query that
    is a key of the index; it returns none when no token is a key. *)
Theorem search_is_ranked (e : SearchEngine) (q : list N) :
  NoDup (search e q) ∧
  StronglySorted (λ a b, likes (heap e !!! b) ≤ likes (heap e !!! a)) (search e q) ∧
  (present_tokens e q = [] → search e q = []) ∧
  (present_tokens e q ≠ [] →
   ∀ a, a ∈ search e q ↔ ∀ w, w ∈ present_tokens e q → a ∈ posting e w).
Proof.
  split; [apply search_NoDup|]. split; [apply search_sorted|].
  split; [apply search_none_present|].
  intros Hsome a. by apply search_some_present.
Qed.

(** Both records of [engine_two] have the token [a]; the one with 5 likes
    comes first. *)
Lemma search_is_ranked_witness :
  present_tokens engine_two (of_string "a") ≠ [] ∧
  (2%positive ∈ search engine_two (of_string "a")
   ↔ ∀ w, w ∈ present_tokens engine_two (of_string "a") →
          2%positive ∈ posting engine_two w) ∧
  search_ids engine_two (of_string "a") = [2; 1].
Proof.
  assert (present_tokens engine_two (of_string "a") ≠ []) as H by by vm_compute.
  split; [exact H|]. split; [|by vm_compute].
  exact (proj2 (proj2 (proj2 (search_is_ranked engine_two (of_string "a")))) H
           2%positive).
Defined.

(** X7. The look-alike characters and the whitespace around a text make
    no difference: a query, its folded form and its normalized form get
    the same answer, and indexing a text, its folded form or its
    normalized form gives the same engine. *)
Theorem look_alikes_are_interchangeable (e : SearchEngine) (id : Z)
    (text ty : list N) (lk : Z) :
  search e (List.map fold_char text) = search e text ∧
  search e (clean_text text) = search e text ∧
  index_record id (List.map fold_char text) ty lk e = index_record id text ty lk e ∧
  index_record id (clean_text text) ty lk e = index_record id text ty lk e.
Proof.
  split; [unfold search; by rewrite clean_text_fold|].
  split; [unfold search; by rewrite clean_text_idemp|].
  split; [unfold index_record; by rewrite clean_text_fold|].
  unfold index_record; by rewrite clean_text_idemp.
Qed.

Lemma present_tokens_same (e : SearchEngine) (q1 q2 : list N) :
  (∀ w, w ∈ split (clean_text q1) ↔ w ∈ split (clean_text q2)) →
  ∀ w, w ∈ present_tokens e q1 ↔ w ∈ present_tokens e q2.
Proof.
  intros Hsame w. rewrite !elem_of_present_tokens. by rewrite Hsame.
Qed.

(** X8. Which records [search] returns depends on the set of the tokens of
    the query only: with the tokens in another order or repeated, the
    answer holds the same records and the same identities, each once; the
    order of records with equal [likes] is all that may differ. *)
Theorem search_by_token_set (e : SearchEngine) (q1 q2 : list N) :
  (∀ w, w ∈ split (clean_text q1) ↔ w ∈ split (clean_text q2)) →
  search e q1 ≡ₚ search e q2 ∧ search_ids e q1 ≡ₚ search_ids e q2.
Proof.
  intros Htok. pose proof (present_tokens_same e q1 q2 Htok) as Hsame.
  assert (search e q1 ≡ₚ search e q2) as Hperm.
  { apply NoDup_Permutation; [apply search_NoDup|apply search_NoDup|].
    intros a.
    destruct (present_tokens e q1) as [|w1 l1] eqn:E1.
    - assert (present_tokens e q2 = []) as E2.
      { destruct (present_tokens e q2) as [|w2 l2]; [done|].
        exfalso. apply (elem_of_nil w2), Hsame, list_elem_of_here. }
      by rewrite (search_none_present e q1 E1), (search_none_present e q2 E2).
    - assert (present_tokens e q2 ≠ []) as E2.
      { intros E2. rewrite E2 in Hsame.
        apply (elem_of_nil w1), Hsame, list_elem_of_here. }
      rewrite (search_some_present e q1 a) by by rewrite E1.
      rewrite (search_some_present e q2 a) by done.
      rewrite E1 in *. split; intros H w Hw; apply H; by apply Hsame. }
  split; [done|]. unfold search_ids. by rewrite Hperm.
Qed.

Lemma search_by_token_set_witness :
  (∀ w, w ∈ split (clean_text (of_string "c a a")) ↔
        w ∈ split (clean_text (of_string "a c"))) ∧
  search_ids engine_two (of_string "c a a")
  ≡ₚ search_ids engine_two (of_string "a c").
Proof.
  assert (∀ w, w ∈ split (clean_text (of_string "c a a")) ↔
               w ∈ split (clean_text (of_string "a c"))) as H.
  { intros w.
    replace (split (clean_text (of_string "c a a")))
      with [of_string "c"; of_string "a"; of_string "a"] by by vm_compute.
    replace (split (clean_text (of_string "a c")))
      with [of_string "a"; of_string "c"] by by vm_compute.
    set_solver. }
  split; [exact H|].
  exact (proj2 (search_by_token_set engine_two (of_string "c a a")
                  (of_string "a c") H)).
Defined.

(** X9. After any sequence of calls on an engine that starts empty, calls
    that raised included: no key of [keywords] has an empty set; every
    object listed under a word has that word in its own text; and every
    record of [subs] carries the id it is stored under and is listed under
    every token of its text. *)
Theorem reachable_engine_invariant (e : SearchEngine) :
  reachable e →
  (∀ w s, keywords e !! w = Some s →
          s ≠ ∅ ∧
          ∀ a, a ∈ s → ∃ r, heap e !! a = Some r ∧ w ∈ split (search_text r)) ∧
  (∀ i a, subs e !! i = Some a →
          ∃ r, heap e !! a = Some r ∧ rec_id r = i ∧
               ∀ w, w ∈ split (search_text r) →
                    ∃ s, keywords e !! w = Some s ∧ a ∈ s).
Proof.
  intros [Hs Hk Hn Hl]%reachable_wf. split.
  - intros w s Hw. split; [by apply (Hn w)|]. intros a Ha.
    destruct (Hk w a) as [[r Er]%elem_of_dom Ht].
    { unfold posting. by rewrite Hw. }
    exists r. split; [done|]. unfold tokens_of in Ht.
    by rewrite (lookup_total_correct _ _ _ Er) in Ht.
  - intros i a Ha. destruct (Hs i a Ha) as [[r Er]%elem_of_dom Hid].
    exists r. rewrite (lookup_total_correct _ _ _ Er) in Hid.
    split; [done|]. split; [done|]. intros w Hw.
    specialize (Hl i a w Ha). unfold tokens_of, posting in Hl.
    rewrite (lookup_total_correct _ _ _ Er) in Hl. specialize (Hl Hw).
    destruct (keywords e !! w) as [s|]; [by exists s|]. set_solver.
Qed.

Lemma reachable_engine_invariant_witness :
  reachable engine_reused ∧
  (∀ w s, keywords engine_reused !! w = Some s → s ≠ ∅).
Proof.
  assert (reachable engine_reused) as H.
  { apply (reachable_call _ (IndexRecord 1 (of_string "b") (of_string "t") 0)).
    apply (reachable_call _ (IndexRecord 1 (of_string "a") (of_string "t") 0)).
    apply reachable_init. }
  split; [exact H|].
  intros w s Hw.
  exact (proj1 (proj1 (reachable_engine_invariant engine_reused H) w s Hw)).
Defined.

Lemma stored_normalized_index_record (id : Z) (st ty : list N) (lk : Z)
    (e : SearchEngine) :
  (∀ i b, subs e !! i = Some b → b ∈ dom (heap e)) →
  stored_normalized e →
  stored_normalized (exec (index_record id st ty lk) e).
Proof.
  intros Hdom Hn. unfold exec. rewrite index_record_run. cbn [snd].
  pose proof (is_fresh (dom (heap e))) as Ha.
  set (a := fresh (dom (heap e))) in *.
  intros i b. cbn [heap subs]. rewrite lookup_insert.
  destruct (decide (id = i)) as [->|Hi].
  - intros [= <-]. rewrite lookup_total_insert_eq. cbn.
    split; [apply clean_text_idemp|apply strip_idemp].
  - intros Hb. rewrite lookup_total_insert_ne; [by apply (Hn i)|].
    intros <-. by apply Ha, (Hdom i).
Qed.

Lemma stored_normalized_other (e : SearchEngine) (a : loc) (r' : Rec)
    (m : gmap Z loc) (kw : gmap (list N) (gset loc)) :
  stored_normalized e →
  (∀ i b, m !! i = Some b → subs e !! i = Some b ∧ b ≠ a) →
  stored_normalized (mkEngine (<[a := r']> (heap e)) m kw).
Proof.
  intros Hn Hm i b Hb. cbn [heap subs] in *.
  destruct (Hm i b Hb) as [Hb' Hne].
  rewrite lookup_total_insert_ne by done. by apply (Hn i).
Qed.

Lemma stored_normalized_likes (e : SearchEngine) (a : loc) (r : Rec) (n : Z) :
  stored_normalized e → heap e !! a = Some r →
  stored_normalized (set_heap (<[a := with_likes n r]> (heap e)) e).
Proof.
  intros Hn Er i b Hb. cbn [set_heap heap subs] in *.
  specialize (Hn i b Hb). destruct (decide (a = b)) as [<-|Hne].
  - rewrite lookup_total_insert_eq.
    by rewrite (lookup_total_correct _ _ _ Er) in Hn.
  - by rewrite lookup_total_insert_ne.
Qed.

Lemma reachable_stored_normalized (e : SearchEngine) :
  reachable e → stored_normalized e.
Proof.
  induction 1 as [|e c Hr IH];
    [intros i a Ha; cbn in Ha; by rewrite lookup_empty in Ha|].
  pose proof (reachable_wf e Hr) as Hwf.
  assert (∀ i b, subs e !! i = Some b → b ∈ dom (heap e)) as Hdom.
  { intros i b Hb. by destruct (wf_subs e Hwf i b Hb). }
  destruct c as [id st ty lk|id st ty lk|id|id|id]; cbn [run_call].
  - by apply stored_normalized_index_record.
  - unfold exec. destruct (subs e !! id) as [a|] eqn:Ea;
      [|by rewrite update_record_absent].
    destruct (wf_subs e Hwf _ _ Ea) as [[r Er]%elem_of_dom Hid].
    rewrite (update_record_run id st ty lk e a r Ea Er).
    cbn zeta.
    assert (∀ i b, delete id (subs e) !! i = Some b →
                   subs e !! i = Some b ∧ b ≠ a) as Hrest.
    { intros i b. rewrite lookup_delete.
      destruct (decide (id = i)) as [|Hi]; [done|]. intros Hb.
      split; [done|]. intros ->. apply Hi.
      destruct (wf_subs e Hwf _ _ Ea) as [_ <-].
      by destruct (wf_subs e Hwf _ _ Hb) as [_ <-]. }
    destruct (retract_words a (keywords e) (split (search_text r)))
      as [[[]|x] kw']; cbn [fst snd].
    + apply (stored_normalized_index_record _ _ _ _
               (mkEngine (<[a:=merged st ty lk r]> (heap e))
                  (delete id (subs e)) kw')).
      * intros i b Hb. cbn [heap subs] in *. rewrite dom_insert_L.
        destruct (Hrest i b Hb) as [Hb' _]. specialize (Hdom i b Hb'). set_solver.
      * by apply stored_normalized_other.
    + intros i b Hb. cbn [heap subs] in *.
      destruct (Hrest i b Hb) as [Hb' _]. by apply (IH i).
  - replace (exec (_ ← remove_record id; ret tt) e)
      with (exec (remove_record id) e).
    2:{ unfold exec, mbind, M_bind, bind, ret.
        by destruct (remove_record id e) as [[?|?] ?]. }
    unfold exec. rewrite remove_record_run.
    destruct (subs e !! id) as [a|] eqn:Ea; [|done]. cbn.
    intros i b. cbn. rewrite lookup_delete.
    destruct (decide (id = i)); [done|]. apply (IH i).
  - unfold exec. destruct (subs e !! id) as [a|] eqn:Ea;
      [|by rewrite increase_likes_absent].
    destruct (wf_subs e Hwf _ _ Ea) as [[r Er]%elem_of_dom Hid].
    rewrite (increase_likes_run id e a r Ea Er).
    by apply stored_normalized_likes.
  - unfold exec. destruct (subs e !! id) as [a|] eqn:Ea;
      [|by rewrite decrease_likes_absent].
    destruct (wf_subs e Hwf _ _ Ea) as [[r Er]%elem_of_dom Hid].
    rewrite (decrease_likes_run id e a r Ea Er).
    by apply stored_normalized_likes.
Qed.

(** X10. After any sequence of calls on an engine that starts empty, the
    text of every record of [subs] is in normal form, so normalizing it
    again changes nothing, and its type has no whitespace around it;
    [update_record] keeps this although it assigns the raw text to the
    record it has removed. *)
Theorem reachable_records_normalized (e : SearchEngine) (i : Z) (a : loc) :
  reachable e → subs e !! i = Some a →
  clean_text (search_text (heap e !!! a)) = search_text (heap e !!! a) ∧
  strip (rec_type (heap e !!! a)) = rec_type (heap e !!! a).
Proof. intros Hr Ha. by apply (reachable_stored_normalized e Hr i a). Qed.

Lemma reachable_records_normalized_witness :
  let e := exec (update_record 1 (Some (of_string "  x  ")) None (-1))
             engine_two in
  reachable e ∧ subs e !! 1 = Some 3%positive ∧
  clean_text (search_text (heap e !!! 3%positive))
  = search_text (heap e !!! 3%positive).
Proof.
  intros e.
  assert (reachable e) as H.
  { apply (reachable_call _ (UpdateRecord 1 (Some (of_string "  x  ")) None (-1))).
    apply (reachable_call _ (IndexRecord 2 (of_string "a c") (of_string "t") 5)).
    apply (reachable_call _ (IndexRecord 1 (of_string "a b") (of_string "t") 0)).
    apply reachable_init. }
  assert (subs e !! 1 = Some 3%positive) as H1 by by vm_compute.
  split; [exact H|]. split; [exact H1|].
  exact (proj1 (reachable_records_normalized e 1 3%positive H H1)).
Defined.


(** X11. When [update_record] returns, [subs] holds for [id] a new record
    with the same id, the merged text normalized, the merged type trimmed
    and the merged likes ([-1] keeps the old likes); the entries of the
    other ids are untouched. *)
Theorem update_record_effect (e : SearchEngine) (id : Z)
    (st ty : option (list N)) (lk : Z) (a : loc) (r : Rec) :
  wf e → subs e !! id = Some a → heap e !! a = Some r →
  result (update_record id st ty lk) e = Ok tt →
  ∃ a', (a' ∉ dom (heap e)) ∧
        subs (exec (update_record id st ty lk) e) !! id = Some a' ∧
        heap (exec (update_record id st ty lk) e) !! a'
        = Some (mkRecord id (clean_text (default (search_text r) st))
                  (strip (default (rec_type r) ty))
                  (if lk =? -1 then likes r else lk)) ∧
        ∀ j, j ≠ id →
             subs (exec (update_record id st ty lk) e) !! j = subs e !! j.
Proof.
  intros Hwf Ea Er. unfold result, exec.
  rewrite (update_record_run id st ty lk e a r Ea Er). cbn zeta.
  destruct (wf_subs e Hwf _ _ Ea) as [_ Hid].
  rewrite (lookup_total_correct _ _ _ Er) in Hid.
  destruct (retract_words a (keywords e) (split (search_text r))) as [[[]|x] kw'];
    cbn [fst snd]; [|done].
  rewrite Hid, index_record_run. cbn [fst snd heap subs keywords]. intros _.
  assert (dom (<[a:=merged st ty lk r]> (heap e)) = dom (heap e)) as Hdom.
  { rewrite dom_insert_L. apply elem_of_dom_2 in Er. set_solver. }
  rewrite Hdom. exists (fresh (dom (heap e))).
  split; [apply is_fresh|]. split; [apply lookup_insert_eq|].
  split; [apply lookup_insert_eq|].
  intros j Hj. by rewrite lookup_insert_ne, lookup_delete_ne.
Qed.

Lemma update_record_effect_witness :
  wf engine_two ∧ subs engine_two !! 1 = Some 1%positive ∧
  heap engine_two !! 1%positive
  = Some (mkRecord 1 (of_string "a b") (of_string "t") 0) ∧
  result (update_record 1 (Some (of_string " d ")) None 7) engine_two = Ok tt ∧
  ∃ a', (a' ∉ dom (heap engine_two)) ∧
        heap (exec (update_record 1 (Some (of_string " d ")) None 7) engine_two)
          !! a'
        = Some (mkRecord 1 (of_string "d") (of_string "t") 7).
Proof.
  assert (subs engine_two !! 1 = Some 1%positive) as H1 by by vm_compute.
  assert (heap engine_two !! 1%positive
          = Some (mkRecord 1 (of_string "a b") (of_string "t") 0)) as H2
    by by vm_compute.
  assert (result (update_record 1 (Some (of_string " d ")) None 7) engine_two
          = Ok tt) as H3 by by vm_compute.
  split; [apply engine_two_wf|]. split; [exact H1|]. split; [exact H2|].
  split; [exact H3|].
  destruct (update_record_effect engine_two 1 (Some (of_string " d ")) None 7
              1%positive _ engine_two_wf H1 H2 H3) as (a' & Hnew & _ & Hrec & _).
  exists a'. split; [exact Hnew|exact Hrec].
Defined.

(** Once [a] is out of the set of [w] and the set holds another object, the
    loop of [remove_record] raises if [w] comes again. *)
Lemma retract_words_stuck (a b : loc) (w : list N) (ws : list (list N))
    (kw : gmap (list N) (gset loc)) :
  b ∈ posting_of kw w → b ≠ a → a ∉ posting_of kw w → w ∈ ws →
  (retract_words a kw ws).1 = Raise (KeyError (KObj a)).
Proof.
  intros Hb Hne. revert kw Hb.
  induction ws as [|x ws IH]; intros kw Hb Ha Hw; [by apply elem_of_nil in Hw|].
  cbn [retract_words]. destruct (retract_ok a kw x) eqn:Eok; [|done].
  apply elem_of_cons in Hw as [<-|Hw].
  - exfalso. unfold retract_ok in Eok. unfold posting_of in Hb, Ha.
    destruct (kw !! w) as [s|]; [|set_solver].
    apply bool_decide_eq_true in Eok. done.
  - apply IH; [|rewrite posting_retract_word; tauto|done].
    apply posting_retract_word. split; [done|]. intros [? _]. done.
Qed.

Lemma retract_words_repeated (a b : loc) (w : list N)
    (l1 l2 l3 : list (list N)) (kw : gmap (list N) (gset loc)) :
  b ∈ posting_of kw w → b ≠ a →
  (retract_words a kw (l1 ++ w :: l2 ++ w :: l3)).1 = Raise (KeyError (KObj a)).
Proof.
  intros Hb Hne. revert kw Hb.
  induction l1 as [|x l1 IH]; intros kw Hb; cbn [app retract_words].
  - destruct (retract_ok a kw w); [|done].
    apply (retract_words_stuck a b w); [|done| |set_solver].
    + apply posting_retract_word. split; [done|]. intros [? _]. done.
    + rewrite posting_retract_word. tauto.
  - destruct (retract_ok a kw x); [|done].
    apply IH. apply posting_retract_word. split; [done|]. intros [? _]. done.
Qed.

(** X12. [remove_record] raises [KeyError] on the record, on any engine,
    when the text of the record has a token twice and the set of that token
    lists another object; the entry of [subs] is gone all the same, and the
    record stays in [heap]. *)
Theorem remove_record_raises_on_shared_repeated_token (e : SearchEngine)
    (id : Z) (a b : loc) (w : list N) (l1 l2 l3 : list (list N)) :
  subs e !! id = Some a →
  tokens_of e a = l1 ++ w :: l2 ++ w :: l3 →
  b ∈ posting e w → b ≠ a →
  result (remove_record id) e = Raise (KeyError (KObj a)) ∧
  subs (exec (remove_record id) e) = delete id (subs e) ∧
  heap (exec (remove_record id) e) = heap e.
Proof.
  intros Ea Ht Hb Hne. unfold result, exec. rewrite remove_record_run, Ea.
  cbn zeta. cbn [fst snd heap subs].
  fold (tokens_of e a). rewrite Ht.
  by rewrite (retract_words_repeated a b w l1 l2 l3 (keywords e) Hb Hne).
Qed.

Lemma remove_record_raises_on_shared_repeated_token_witness :
  subs engine_repeated !! 1 = Some 1%positive ∧
  tokens_of engine_repeated 1%positive
  = [] ++ of_string "a" :: [] ++ of_string "a" :: [] ∧
  2%positive ∈ posting engine_repeated (of_string "a") ∧
  result (remove_record 1) engine_repeated = Raise (KeyError (KObj 1%positive)).
Proof.
  assert (subs engine_repeated !! 1 = Some 1%positive) as H1 by by vm_compute.
  assert (tokens_of engine_repeated 1%positive
          = [] ++ of_string "a" :: [] ++ of_string "a" :: []) as H2
    by by vm_compute.
  assert (2%positive ∈ posting engine_repeated (of_string "a")) as H3.
  { apply (bool_decide_unpack _). by vm_compute. }
  split; [exact H1|]. split; [exact H2|]. split; [exact H3|].
  apply (remove_record_raises_on_shared_repeated_token engine_repeated 1
           1%positive 2%positive (of_string "a") [] [] [] H1 H2 H3).
  done.
Defined.

(** X13. [index_record] returns on any engine, and it only adds: the
    entries of the other ids, the objects already in [heap] and every
    listing of the keyword index stay, the one of an earlier record of the
    same id included; the new listings are those of the new record under
    the tokens of its normalized text. *)
Theorem index_record_only_adds (e : SearchEngine) (id : Z) (text ty : list N)
    (lk : Z) :
  result (index_record id text ty lk) e = Ok tt ∧
  (∀ j, j ≠ id → subs (exec (index_record id text ty lk) e) !! j = subs e !! j) ∧
  (∀ b, b ∈ dom (heap e) →
        heap (exec (index_record id text ty lk) e) !! b = heap e !! b) ∧
  (∀ w b, b ∈ posting (exec (index_record id text ty lk) e) w
          ↔ b ∈ posting e w ∨
            (b = fresh (dom (heap e)) ∧ w ∈ split (clean_text text))).
Proof.
  unfold result, exec. rewrite index_record_run. cbn [fst snd heap subs].
  split; [done|]. split; [|split].
  - intros j Hj. by apply lookup_insert_ne.
  - intros b Hb. apply lookup_insert_ne. intros <-. by apply (is_fresh (dom (heap e))).
  - intros w b. unfold posting. cbn [keywords].
    fold (posting_of
            (foldl (index_word (fresh (dom (heap e)))) (keywords e)
               (split (clean_text text))) w).
    by rewrite posting_index_words.
Qed.


End EngineFacts.

(** ** More on the user cache and on [UserPermission] *)

Module UserFacts.
Import PyStr Cache CacheMore.

Lemma permission_stored (p : pyval) (u : UserRecord) :
  permission (update_permission p u)
  = match ordinal_of p with Some v => PInt v | None => p end.
Proof.
  unfold update_permission, ordinal_of. destruct p as [name|n]; [|done].
  by destruct (dict_get permission_values name).
Qed.

Lemma geb_leb_decide (v lo hi : Z) :
  (v >=? lo) && (v <=? hi) = bool_decide (lo ≤ v ≤ hi).
Proof.
  rewrite Z.geb_leb.
  destruct (Z.leb_spec lo v), (Z.leb_spec v hi); cbn; symmetry;
    first [by apply bool_decide_eq_true; lia|by apply bool_decide_eq_false; lia].
Qed.

(** X14. [add_user] registers the user, over an earlier record of the same
    id if there is one: the step it was given matches, the permission is
    tested as the number it stands for (a name of the table or a number),
    and the other users are untouched. *)
Theorem add_user_registers (lower : list N → list N) (c : UserCache) (id : Z)
    (p : pyval) (step : list N) (v min max : Z) :
  lower [] = [] → ordinal_of p = Some v →
  add_user lower id p step c
  = (Ok tt, exec (add_user lower id p step) c) ∧
  users (exec (add_user lower id p step) c) !! id
  = Some (mkUser id (PInt v) (lower (strip step))) ∧
  result (match_step lower id step) (exec (add_user lower id p step) c) = Ok true ∧
  result (has_permission id min max) (exec (add_user lower id p step) c)
  = Ok (bool_decide (min ≤ v ≤ max)) ∧
  (∀ j, j ≠ id → users (exec (add_user lower id p step) c) !! j = users c !! j).
Proof.
  intros Hlower Hv.
  assert (new_UserRecord lower id p step = mkUser id (PInt v) (lower (strip step)))
    as Hrec.
  { unfold new_UserRecord.
    pose proof (permission_stored p
                  (mkUser id p match step with [] => [] | _ => lower (strip step) end))
      as Hp.
    rewrite Hv in Hp.
    destruct (update_permission p _) as [i q s] eqn:E.
    assert (i = id ∧ s = match step with [] => [] | _ => lower (strip step) end)
      as [-> ->].
    { revert E. unfold update_permission. destruct p as [name|n]; [|by intros [= <- _ <-]].
      destruct (dict_get permission_values name); by intros [= <- _ <-]. }
    cbn in Hp. subst q. f_equal.
    destruct step; [|done]. change (strip []) with (@nil N). by rewrite Hlower. }
  unfold result, exec, add_user, match_step, has_permission, record_has_permission.
  cbn [fst snd users]. rewrite Hrec.
  split; [done|]. split; [apply lookup_insert_eq|].
  rewrite !lookup_insert_eq. cbn [fst permission last_step].
  split; [by rewrite bool_decide_eq_true_2|].
  split; [by rewrite geb_leb_decide|].
  intros j Hj. by apply lookup_insert_ne.
Qed.

Lemma add_user_registers_witness :
  let c := exec (add_user (λ s, s) 10 (PStr (of_string "Editor"))
                   (of_string " await_title ")) Cache.init in
  ordinal_of (PStr (of_string "Editor")) = Some 2 ∧
  result (match_step (λ s, s) 10 (of_string " await_title ")) c = Ok true ∧
  result (has_permission 10 3 3) c = Ok (bool_decide (3 ≤ 2 ≤ 3)).
Proof.
  intros c.
  assert (ordinal_of (PStr (of_string "Editor")) = Some 2) as Hv by by vm_compute.
  split; [exact Hv|].
  destruct (add_user_registers (λ s, s) Cache.init 10 (PStr (of_string "Editor"))
              (of_string " await_title ") 2 3 3 eq_refl Hv)
    as (_ & _ & Hm & Hp & _).
  split; [exact Hm|exact Hp].
Defined.

(** X15. After [update_user_step(id, s)] on a registered id, [match_step]
    answers for any step whether it is [s] up to trimming and lower case,
    so [s] itself matches; the permission of the user and the other users
    are untouched. *)
Theorem update_step_then_match (lower : list N → list N) (c : UserCache)
    (id : Z) (u : UserRecord) (s s' : list N) :
  users c !! id = Some u →
  update_user_step lower id s c = (Ok tt, exec (update_user_step lower id s) c) ∧
  result (match_step lower id s) (exec (update_user_step lower id s) c) = Ok true ∧
  result (match_step lower id s') (exec (update_user_step lower id s) c)
  = Ok (bool_decide (lower (strip s) = lower (strip s'))) ∧
  permission <$> users (exec (update_user_step lower id s) c) !! id
  = Some (permission u) ∧
  (∀ j, j ≠ id → users (exec (update_user_step lower id s) c) !! j = users c !! j).
Proof.
  intros Hu. unfold result, exec, update_user_step, match_step. rewrite Hu.
  cbn [fst snd users]. rewrite !lookup_insert_eq. cbn [fst last_step].
  split; [done|]. split; [by rewrite bool_decide_eq_true_2|].
  split; [done|]. split; [done|].
  intros j Hj. by apply lookup_insert_ne.
Qed.

Lemma update_step_then_match_witness :
  let c := exec (add_user (λ s, s) 10 (PInt 1) (of_string "start")) Cache.init in
  users c !! 10 = Some (mkUser 10 (PInt 1) (of_string "start")) ∧
  result (match_step (λ s, s) 10 (of_string "title "))
    (exec (update_user_step (λ s, s) 10 (of_string " title")) c)
  = Ok (bool_decide (strip (of_string " title") = strip (of_string "title "))).
Proof.
  intros c.
  assert (users c !! 10 = Some (mkUser 10 (PInt 1) (of_string "start"))) as Hu
    by by vm_compute.
  split; [exact Hu|].
  destruct (update_step_then_match (λ s, s) c 10 _ (of_string " title")
              (of_string "title ") Hu) as (_ & _ & H & _).
  exact H.
Defined.

(** X16. [remove_user] on an unknown id returns [None] and changes
    nothing. On a registered id it returns the record; afterwards the id
    is unknown, [has_permission] and [match_step] answer [False] for it, a
    second [remove_user] returns [None], and the other users are
    untouched. *)
Theorem remove_user_effect (lower : list N → list N) (c : UserCache) (id : Z)
    (min max : Z) (step : list N) :
  (users c !! id = None → remove_user id c = (Ok None, c)) ∧
  (∀ u, users c !! id = Some u →
        result (remove_user id) c = Ok (Some u) ∧
        users (exec (remove_user id) c) !! id = None ∧
        result (has_permission id min max) (exec (remove_user id) c) = Ok false ∧
        result (match_step lower id step) (exec (remove_user id) c) = Ok false ∧
        result (remove_user id) (exec (remove_user id) c) = Ok None ∧
        ∀ j, j ≠ id → users (exec (remove_user id) c) !! j = users c !! j).
Proof.
  split.
  - intros Hu. unfold remove_user. by rewrite Hu.
  - intros u Hu.
    unfold result, exec, remove_user, has_permission, match_step. rewrite Hu.
    cbn [fst snd users]. rewrite !lookup_delete_eq. cbn [fst].
    repeat split. intros j Hj. by apply lookup_delete_ne.
Qed.

Lemma remove_user_effect_witness :
  let c := exec (add_user (λ s, s) 10 (PInt 2) (of_string "x")) Cache.init in
  users c !! 10 = Some (mkUser 10 (PInt 2) (of_string "x")) ∧
  result (remove_user 10) c = Ok (Some (mkUser 10 (PInt 2) (of_string "x"))) ∧
  result (has_permission 10 1 3) (exec (remove_user 10) c) = Ok false.
Proof.
  intros c.
  assert (users c !! 10 = Some (mkUser 10 (PInt 2) (of_string "x"))) as Hu
    by by vm_compute.
  split; [exact Hu|].
  destruct (proj2 (remove_user_effect (λ s, s) c 10 1 3 []) _ Hu)
    as (H1 & _ & H2 & _).
  split; [exact H1|exact H2].
Defined.

(** X17. [add_user] on an id the cache does not hold, then [remove_user]
    on that id: the second call returns the record the first stored and
    the cache is what it was. *)
Theorem add_then_remove_user (lower : list N → list N) (c : UserCache) (id : Z)
    (p : pyval) (step : list N) :
  users c !! id = None →
  remove_user id (exec (add_user lower id p step) c)
  = (Ok (Some (new_UserRecord lower id p step)), c).
Proof.
  intros Hu. unfold exec, add_user, remove_user. cbn [snd users].
  rewrite lookup_insert_eq. f_equal. destruct c as [m]. cbn in *.
  f_equal. by apply delete_insert_id.
Qed.

Lemma add_then_remove_user_witness :
  users Cache.init !! 10 = None ∧
  exec (remove_user 10)
    (exec (add_user (λ s, s) 10 (PInt 2) (of_string "x")) Cache.init)
  = Cache.init.
Proof.
  assert (users Cache.init !! 10 = None) as H by by vm_compute.
  split; [exact H|]. unfold exec at 1.
  by rewrite (add_then_remove_user (λ s, s) Cache.init 10 (PInt 2) (of_string "x") H).
Defined.

(** X18. [update_user_permission] on a registered id stores the number the
    permission stands for; afterwards [has_permission] tests that number,
    and the id, the step of the user and the other users are untouched. *)
Theorem update_permission_known (c : UserCache) (id : Z) (u : UserRecord)
    (p : pyval) (v min max : Z) :
  users c !! id = Some u → ordinal_of p = Some v →
  update_user_permission id p c
  = (Ok tt, exec (update_user_permission id p) c) ∧
  users (exec (update_user_permission id p) c) !! id
  = Some (mkUser (user_id u) (PInt v) (last_step u)) ∧
  result (has_permission id min max) (exec (update_user_permission id p) c)
  = Ok (bool_decide (min ≤ v ≤ max)) ∧
  (∀ j, j ≠ id → users (exec (update_user_permission id p) c) !! j = users c !! j).
Proof.
  intros Hu Hv.
  assert (update_permission p u = mkUser (user_id u) (PInt v) (last_step u)) as Hrec.
  { pose proof (permission_stored p u) as Hp. rewrite Hv in Hp.
    revert Hp. unfold update_permission. destruct p as [name|n].
    - destruct (dict_get permission_values name); cbn; by intros ->.
    - cbn. by intros ->. }
  unfold result, exec, update_user_permission, has_permission,
    record_has_permission. rewrite Hu. cbn [fst snd users]. rewrite Hrec.
  split; [done|]. split; [apply lookup_insert_eq|].
  rewrite lookup_insert_eq. cbn [fst permission].
  split; [by rewrite geb_leb_decide|].
  intros j Hj. by apply lookup_insert_ne.
Qed.

Lemma update_permission_known_witness :
  let c := exec (add_user (λ s, s) 10 (PInt 1) (of_string "start")) Cache.init in
  users c !! 10 = Some (mkUser 10 (PInt 1) (of_string "start")) ∧
  ordinal_of (PStr (of_string "Admin")) = Some 3 ∧
  result (has_permission 10 3 3)
    (exec (update_user_permission 10 (PStr (of_string "Admin"))) c)
  = Ok (bool_decide (3 ≤ 3 ≤ 3)).
Proof.
  intros c.
  assert (users c !! 10 = Some (mkUser 10 (PInt 1) (of_string "start"))) as Hu
    by by vm_compute.
  assert (ordinal_of (PStr (of_string "Admin")) = Some 3) as Hv by by vm_compute.
  split; [exact Hu|]. split; [exact Hv|].
  destruct (update_permission_known c 10 _ (PStr (of_string "Admin")) 3 3 3 Hu Hv)
    as (_ & _ & H & _).
  exact H.
Defined.



(** X20. [UserPermission] and [UserCache] agree on permissions: when the
    cache holds for every user the permission the older class holds, the
    two [has_permission] give the same answer or the same exception, and
    the two [add_user] keep the agreement, as do, on a registered id, the
    two updates of a permission and the two [remove_user]. *)
Theorem cache_mirrors_user_permission (lower : list N → list N)
    (p : Permission.UserPermission) (c : UserCache) (id : Z) (perm : pyval)
    (step : list N) (min max : Z) :
  Permission.mirrors p c →
  result (Permission.has_permission id min max) p
  = result (has_permission id min max) c ∧
  Permission.mirrors (exec (Permission.add_user id perm) p)
    (exec (add_user lower id perm step) c) ∧
  (is_Some (users c !! id) →
   Permission.mirrors (exec (Permission.update_permission id perm) p)
     (exec (update_user_permission id perm) c) ∧
   result (Permission.remove_user id) p = Ok tt ∧
   Permission.mirrors (exec (Permission.remove_user id) p)
     (exec (remove_user id) c)).
Proof.
  intros Hm. split; [|split].
  - unfold result, Permission.has_permission, has_permission,
      record_has_permission.
    rewrite (Hm id). destruct (users c !! id) as [u|]; [|done].
    cbn. by destruct (permission u).
  - intros j. unfold exec, Permission.add_user, add_user. cbn [snd].
    cbn [Permission.users users]. rewrite !lookup_insert.
    destruct (decide (id = j)) as [->|]; [|apply Hm].
    cbn. f_equal. unfold new_UserRecord. rewrite permission_stored.
    unfold ordinal_of. by destruct perm.
  - intros [u Hu]. split; [|split].
    + intros j.
      unfold exec, Permission.update_permission, Permission.add_user,
        update_user_permission.
      rewrite Hu. cbn [snd Permission.users users]. rewrite !lookup_insert.
      destruct (decide (id = j)) as [->|]; [|apply Hm].
      cbn. f_equal. rewrite permission_stored.
      unfold ordinal_of. by destruct perm.
    + unfold result, Permission.remove_user. rewrite (Hm id), Hu. done.
    + intros j. unfold exec, Permission.remove_user, remove_user.
      rewrite (Hm id), Hu. cbn [fmap option_fmap option_map snd].
      cbn [Permission.users users]. rewrite !lookup_delete.
      destruct (decide (id = j)); [done|apply Hm].
Qed.

Lemma cache_mirrors_user_permission_witness :
  Permission.mirrors Permission.init Cache.init ∧
  Permission.mirrors
    (exec (Permission.add_user 10 (PStr (of_string "Editor"))) Permission.init)
    (exec (add_user (λ s, s) 10 (PStr (of_string "Editor")) []) Cache.init).
Proof.
  assert (Permission.mirrors Permission.init Cache.init) as H.
  { intros j. cbn. by rewrite !lookup_empty. }
  split; [exact H|].
  exact (proj1 (proj2 (cache_mirrors_user_permission (λ s, s) Permission.init
                         Cache.init 10 (PStr (of_string "Editor")) [] 1 3 H))).
Defined.

(** X21. On an id that [UserPermission] does not hold, [remove_user] raises
    [KeyError] on that id and changes nothing, and [update_permission]
    registers the id, where the two methods of [UserCache] return and
    change nothing. *)
Theorem user_permission_unknown_id (p : Permission.UserPermission) (id : Z)
    (perm : pyval) :
  Permission.users p !! id = None →
  Permission.remove_user id p = (Raise (KeyError (KInt id)), p) ∧
  result (Permission.update_permission id perm) p = Ok tt ∧
  is_Some (Permission.users (exec (Permission.update_permission id perm) p) !! id).
Proof.
  intros Hu. split; [|split].
  - unfold Permission.remove_user. by rewrite Hu.
  - done.
  - unfold exec, Permission.update_permission, Permission.add_user.
    cbn [snd Permission.users]. rewrite lookup_insert_eq. by eexists.
Qed.

Lemma user_permission_unknown_id_witness :
  Permission.users Permission.init !! 5 = None ∧
  Permission.remove_user 5 Permission.init
  = (Raise (KeyError (KInt 5)), Permission.init).
Proof.
  assert (Permission.users Permission.init !! 5 = None) as H by by vm_compute.
  split; [exact H|].
  exact (proj1 (user_permission_unknown_id Permission.init 5 (PInt 1) H)).
Defined.


End UserFacts.

(** ** The search text of a submission *)

Module TablesFacts.
Import PyStr PyStrFacts Tables.

Example str_of_int_values :
  str_of_int 0 = of_string "0" ∧ str_of_int 1402 = of_string "1402" ∧
  str_of_int (-5) = of_string "-5".
Proof. by vm_compute. Qed.

Lemma uint_digits (d : Decimal.uint) :
  Forall (λ c, is_space c = false) (of_string (NilEmpty.string_of_uint d)).
Proof.
  unfold of_string.
  induction d; cbn [NilEmpty.string_of_uint list_ascii_of_string List.map];
    constructor; done.
Qed.

(** [str(n)] is one token. *)
Lemma split_str_of_int (n : Z) : split (str_of_int n) = [str_of_int n].
Proof.
  apply split_word.
  - unfold str_of_int, of_string. destruct (Z.to_int n) as [d|d]; [|done].
    cbn [NilZero.string_of_int]. by destruct d.
  - unfold str_of_int. destruct (Z.to_int n) as [d|d]; cbn [NilZero.string_of_int].
    + destruct d; try apply uint_digits. by repeat constructor.
    + unfold of_string. cbn [list_ascii_of_string List.map].
      constructor; [done|].
      destruct d; try apply uint_digits. by repeat constructor.
Qed.

Lemma split_labelled (text label value : list N) :
  split label = [label] →
  split (text ++ labelled label value) = split text ++ label :: split value.
Proof.
  intros Hl. unfold labelled.
  by rewrite (split_app_space text), (split_app_space label), Hl.
Qed.

Lemma split_add_if (cond : bool) (text label value : list N) :
  split label = [label] →
  split (add_if cond (labelled label value) text)
  = split text ++ (if cond then label :: split value else []).
Proof.
  intros Hl. unfold add_if. destruct cond; [by apply split_labelled|].
  by rewrite app_nil_r.
Qed.

(** X22. The tokens of the text [Document.update_search_text] assigns: those
    of the file type, then for the course, the professor, the writer, the
    year, the faculty and the university, in this order, a label and the
    tokens of the value; a text field equal to the marker of an unset value
    and a year equal to 0 give nothing, not even the label. *)
Theorem document_text_tokens (d : DocumentFields) (fac uni : list N) :
  split (document_text d fac uni)
  = split (file_type d)
    ++ (if bool_decide (doc_course d ≠ unset)
        then w_dars :: split (doc_course d) else [])
    ++ (if bool_decide (doc_professor d ≠ unset)
        then w_ostad :: split (doc_professor d) else [])
    ++ (if bool_decide (writer d ≠ unset)
        then w_nevisande :: split (writer d) else [])
    ++ (if bool_decide (doc_semester_year d ≠ 0)
        then [w_sal; str_of_int (doc_semester_year d)] else [])
    ++ (if bool_decide (fac ≠ unset) then w_daneshkade :: split fac else [])
    ++ (if bool_decide (uni ≠ unset) then w_daneshgah :: split uni else []).
Proof.
  unfold document_text. cbn zeta.
  rewrite !split_add_if by done. rewrite split_str_of_int.
  by rewrite <- !app_assoc.
Qed.

(** X23. The tokens of the text [Media.update_search_text] assigns: the
    two words of the prefix, the tokens of the course, the label and the
    tokens of the professor, both whatever their value, then the faculty,
    the year and the university, each with its label and left out when
    unset. *)
Theorem media_text_tokens (m : MediaFields) (fac uni : list N) :
  split (media_text m fac uni)
  = w_film :: w_dars :: split (media_course m)
    ++ w_ostad :: split (media_professor m)
    ++ (if bool_decide (fac ≠ unset) then w_daneshkade :: split fac else [])
    ++ (if bool_decide (media_semester_year m ≠ 0)
        then [w_sal; str_of_int (media_semester_year m)] else [])
    ++ (if bool_decide (uni ≠ unset) then w_daneshgah :: split uni else []).
Proof.
  unfold media_text. cbn zeta.
  rewrite !split_add_if by done. rewrite split_str_of_int.
  rewrite (split_app_space w_film) by done.
  rewrite (split_app_space w_dars) by done.
  rewrite (split_labelled (media_course m)) by done.
  cbn [app]. f_equal. f_equal. by rewrite <- !app_assoc.
Qed.

(** X24. The tokens of the text [Profile.update_search_text] assigns: the
    word of the prefix, the tokens of the title, then the faculty and the
    university, each with its label and left out when unset. *)
Theorem profile_text_tokens (title fac uni : list N) :
  split (profile_text title fac uni)
  = w_ettelaat :: split title
    ++ (if bool_decide (fac ≠ unset) then w_daneshkade :: split fac else [])
    ++ (if bool_decide (uni ≠ unset) then w_daneshgah :: split uni else []).
Proof.
  unfold profile_text. cbn zeta.
  rewrite !split_add_if by done.
  rewrite (split_app_space w_ettelaat) by done.
  cbn [app]. by rewrite <- !app_assoc.
Qed.

(** X25. [confirm] refuses a missing user and a user whose access level is
    below 2: it raises [RuntimeError] and changes nothing, whatever the
    class of the submission. *)
Theorem confirm_refuses (s : Submission) :
  confirm None s = (Some RuntimeError, s) ∧
  (∀ u, access_level u < 2 → confirm (Some u) s = (Some RuntimeError, s)).
Proof.
  split; [done|]. intros u Hu. unfold confirm.
  by rewrite (proj2 (Z.ltb_lt _ _) Hu).
Qed.

Lemma confirm_refuses_witness :
  let s := mkSubmission false None unset unset None (IsProfile (of_string "lab")) in
  access_level (mkTUser 7 1 []) < 2 ∧
  confirm (Some (mkTUser 7 1 [])) s = (Some RuntimeError, s).
Proof.
  intros s.
  assert (access_level (mkTUser 7 1 []) < 2) as H by by vm_compute.
  split; [exact H|].
  exact (proj2 (confirm_refuses s) (mkTUser 7 1 []) H).
Defined.

(** X26. [confirm] by a user of access level 2 or more marks the
    submission confirmed and records the user. On a document, a profile
    or a media it then assigns the search text of the class and returns,
    and a second [confirm] by the same user changes nothing more. On a
    plain [Submission] it raises [NotImplementedError] after the two
    assignments, which stay. *)
Theorem confirm_effect (u : User) (s : Submission) :
  2 ≤ access_level u →
  match variant s with
  | IsSubmission =>
      confirm (Some u) s
      = (Some NotImplementedError,
         mkSubmission true (Some u) (university s) (faculty s) (search_text s)
           IsSubmission)
  | IsDocument d =>
      confirm (Some u) s
      = (None,
         mkSubmission true (Some u) (university s) (faculty s)
           (Some (document_text d (faculty s) (university s))) (IsDocument d))
  | IsProfile title =>
      confirm (Some u) s
      = (None,
         mkSubmission true (Some u) (university s) (faculty s)
           (Some (profile_text title (faculty s) (university s))) (IsProfile title))
  | IsMedia m =>
      confirm (Some u) s
      = (None,
         mkSubmission true (Some u) (university s) (faculty s)
           (Some (media_text m (faculty s) (university s))) (IsMedia m))
  end ∧
  confirm (Some u) (confirm (Some u) s).2 = confirm (Some u) s.
Proof.
  intros Hu. unfold confirm.
  rewrite (proj2 (Z.ltb_ge _ _) Hu).
  unfold update_search_text. cbn [variant faculty university].
  destruct (variant s) eqn:E; by rewrite ?E.
Qed.

Lemma confirm_effect_witness :
  let u := mkTUser 7 2 [] in
  let s := mkSubmission false None unset unset None
             (IsMedia (mkMedia (of_string "math") (of_string "smith") 0)) in
  2 ≤ access_level u ∧
  confirm (Some u) s
  = (None,
     mkSubmission true (Some u) unset unset
       (Some (w_film ++ 32%N :: w_dars ++ of_string " math"
              ++ 32%N :: w_ostad ++ of_string " smith"))
       (IsMedia (mkMedia (of_string "math") (of_string "smith") 0))).
Proof.
  intros u s. split; [by vm_compute|].
  pose proof (proj1 (confirm_effect u s ltac:(by vm_compute))) as H.
  cbn [variant s] in H. rewrite H. by vm_compute.
Defined.

Lemma move_plus_token (s : list N) :
  s ≠ [] → Forall (λ c, is_space c = false) s →
  ∃ t, move_plus s = Some t ∧ t ≠ [] ∧ Forall (λ c, is_space c = false) t.
Proof.
  intros Hne Hs. destruct s as [|c s]; [done|]. cbn [move_plus].
  apply Forall_cons in Hs as [Hc Hs].
  destruct (c =? 43)%N.
  - exists (s ++ [43%N]). split; [done|]. split; [by destruct s|].
    apply Forall_app. split; [done|]. by repeat constructor.
  - exists (c :: s). split; [done|]. split; [done|]. by constructor.
Qed.

Lemma split_join_space (ts : list (list N)) :
  Forall (λ t, t ≠ [] ∧ Forall (λ c, is_space c = false) t) ts →
  split (join_space ts) = ts.
Proof.
  induction 1 as [|t ts [Hne Ht] Hts IH]; [done|].
  cbn [join_space]. destruct ts as [|t' ts]; [by apply split_word|].
  rewrite split_app_space by done. by rewrite IH, split_word.
Qed.

(** X28. The phone number of [Profile.user_display] never raises
    [IndexError]: the tokens it takes the first character of are not
    empty. The tokens of its result are the tokens of the number in
    reverse order, each with a leading [+] moved to its end, so there are
    as many. *)
Theorem pretty_phone_number_tokens (phone_number : list N) :
  ∃ out, pretty_phone_number phone_number = Some out ∧
         mapM move_plus (reverse (split phone_number)) = Some (split out) ∧
         List.length (split out) = List.length (split phone_number).
Proof.
  unfold pretty_phone_number.
  assert (Forall (λ t, t ≠ [] ∧ Forall (λ c, is_space c = false) t)
            (reverse (split phone_number))) as Htok.
  { apply Forall_reverse, Forall_forall. intros w Hw.
    by apply (split_tokens phone_number). }
  assert (∃ ts, mapM move_plus (reverse (split phone_number)) = Some ts ∧
                Forall (λ t, t ≠ [] ∧ Forall (λ c, is_space c = false) t) ts)
    as (ts & Hts & Hok).
  { induction Htok as [|t l [Hne Ht] _ (ts & IH & Hts)]; [by exists []|].
    destruct (move_plus_token t Hne Ht) as (t' & Ht' & Hne' & Hsp').
    exists (t' :: ts). cbn. rewrite Ht', IH. cbn. split; [done|].
    by constructor. }
  rewrite Hts. cbn. exists (join_space ts). split; [done|].
  rewrite (split_join_space ts Hok). split; [done|].
  apply mapM_Some, Forall2_length in Hts.
  by rewrite <- Hts, length_reverse.
Qed.

Example pretty_phone_number_value :
  pretty_phone_number (of_string "+98 912  1234567")
  = Some (of_string "1234567 912 98+").
Proof. by vm_compute. Qed.


End TablesFacts.

(** ** Submissions in the index *)

Module IndexedSubmissions.
Import PyStr PyStrFacts Search SearchFacts EngineFacts Tables TablesFacts.

(** A field whose tokens are tokens of the indexed text is a query that
    finds the record. *)
Lemma found_by_field (e : SearchEngine) (id : Z) (text kind : list N) (lk : Z)
    (field : list N) :
  split field ≠ [] →
  (∀ w, w ∈ split field → w ∈ split text) →
  id ∈ search_ids (exec (index_record id text kind lk) e) field.
Proof.
  intros Hne Hsub. apply found_after_index.
  - rewrite split_clean_text. by destruct (split field).
  - intros w. rewrite !split_clean_text, !list_elem_of_In, !List.in_map_iff.
    intros (w0 & <- & Hw0). exists w0. split; [done|].
    by apply list_elem_of_In, Hsub, list_elem_of_In.
Qed.

(** X27. A submission indexed under the text its [update_search_text]
    builds is found, on any engine, by the query made of its course for a
    media, of its title for a profile, and of its course for a document
    whose course is set, provided the field has a token. *)
Theorem indexed_submission_found_by_field (e : SearchEngine) (id : Z)
    (kind fac uni : list N) (lk : Z) :
  (∀ m, split (media_course m) ≠ [] →
        id ∈ search_ids (exec (index_record id (media_text m fac uni) kind lk) e)
               (media_course m)) ∧
  (∀ title, split title ≠ [] →
        id ∈ search_ids
               (exec (index_record id (profile_text title fac uni) kind lk) e)
               title) ∧
  (∀ d, doc_course d ≠ unset → split (doc_course d) ≠ [] →
        id ∈ search_ids
               (exec (index_record id (document_text d fac uni) kind lk) e)
               (doc_course d)).
Proof.
  split; [|split].
  - intros m Hm. apply found_by_field; [done|].
    intros w Hw. rewrite media_text_tokens. set_solver.
  - intros title Ht. apply found_by_field; [done|].
    intros w Hw. rewrite profile_text_tokens. set_solver.
  - intros d Hset Hd. apply found_by_field; [done|].
    intros w Hw. rewrite document_text_tokens.
    rewrite (bool_decide_eq_true_2 _ Hset). set_solver.
Qed.

Lemma indexed_submission_found_by_field_witness :
  split riazi ≠ [] ∧
  4 ∈ search_ids
        (exec (index_record 4 (media_text (mkMedia riazi ahmadi 0) unset unset)
                 (of_string "media") 0) engine_scenario)
        riazi.
Proof.
  assert (split riazi ≠ []) as H by by vm_compute.
  split; [exact H|].
  exact (proj1 (indexed_submission_found_by_field engine_scenario 4
                  (of_string "media") unset unset 0)
           (mkMedia riazi ahmadi 0) H).
Defined.

End IndexedSubmissions.
